(** * The route/island manifest builder of Fresh ([src/dev/mod.ts])

    A shallow embedding of [collectDir], [collect], [toImportSpecifier],
    [generate], [arraysEqual] and [dev], followed by the properties of the
    specification that are settled on it.

    Conventions of the embedding.
    - A JavaScript string is a [string]: a sequence of code units, compared
      and ordered unit by unit.  A code unit is 8 bits wide here; the units
      the program tells apart (".", "/", "\", the double quote and the
      control characters) are all below 128.
    - A rejected promise or a thrown exception is [Throw e]; an [await]ed
      value is [Ok v].
    - What the program asks of its host (Deno, the std path and fs modules
      re-exported by [deps.ts]) is a record of answers, so that every theorem
      holds whatever the host answers. *)

From Stdlib Require Import ZArith Ascii String.
From stdpp Require Import base decidable option list sorting gmap strings pretty.

Local Open Scope string_scope.
Local Open Scope list_scope.

(** ** JavaScript builtins used by the program *)

Module Js.

(** [s.split(sep)] for a separator of one code unit.  The result is never
    empty: [("").split(".")] is [[""]]. *)
Fixpoint split (sep : ascii) (s : string) : list string :=
  match s with
  | "" => [""]
  | String c s' =>
      if decide (c = sep) then "" :: split sep s'
      else match split sep s' with
           | [] => [String c ""]
           | seg :: segs => String c seg :: segs
           end
  end.

(** [xs.join(sep)]. *)
Fixpoint join (sep : string) (xs : list string) : string :=
  match xs with
  | [] => ""
  | [x] => x
  | x :: rest => x +:+ sep +:+ join sep rest
  end.

(** [xs.slice(0, -1)]: the end index [length - 1] is clamped at [0]. *)
Definition slice_0_m1 {A} (xs : list A) : list A :=
  take (length xs - 1) xs.

(** [s.replace(/c/g, d)] for single code units [c] and [d]. *)
Fixpoint replaceAll (c d : ascii) (s : string) : string :=
  match s with
  | "" => ""
  | String x s' => String (if decide (x = c) then d else x) (replaceAll c d s')
  end.

(** [s.startsWith(p)]. *)
Definition startsWith (p s : string) : bool := String.prefix p s.

(** [s.charCodeAt(i)]; [None] stands for [NaN], out of range. *)
Definition charCodeAt (s : string) (i : Z) : option ascii :=
  if (i <? 0)%Z then None else String.get (Z.to_nat i) s.

(** [s.lastIndexOf(c)] for one code unit: [-1] when [c] does not occur. *)
Fixpoint lastIndexOf (c : ascii) (s : string) : Z :=
  match s with
  | "" => -1
  | String x s' =>
      let r := lastIndexOf c s' in
      if (0 <=? r)%Z then (r + 1)%Z
      else if decide (x = c) then 0%Z else (-1)%Z
  end.

(** [s.slice(from, to)] for [0 <= from <= to]. *)
Definition slice (s : string) (from to : Z) : string :=
  String.substring (Z.to_nat from) (Z.to_nat (to - from)) s.

(** [s.includes(c)] for one code unit, used to state properties. *)
Fixpoint includes (c : ascii) (s : string) : bool :=
  match s with
  | "" => false
  | String x s' => if decide (x = c) then true else includes c s'
  end.

(** [xs.sort()] on an array of strings: the default comparison orders
    strings by code units.  Any sorting algorithm yields the same array,
    since equal strings are indistinguishable. *)
Definition sort (xs : list string) : list string := merge_sort String.le xs.

(** [xs.map((x, i) => f(x, i))], the index starting at [start]. *)
Fixpoint mapi_from {A B} (start : nat) (f : A -> nat -> B) (xs : list A) : list B :=
  match xs with
  | [] => []
  | x :: rest => f x start :: mapi_from (S start) f rest
  end.

Definition mapi {A B} (f : A -> nat -> B) (xs : list A) : list B :=
  mapi_from 0 f xs.

End Js.

(** ** The POSIX path functions of the std path module

    [posix.normalize] and [join] are not under [src/]: [deps.ts] re-exports
    them from the std library.  They are modelled on the library's code:
    [normalizeString] is its loop over the code units of the path, with its
    variables [res], [lastSegmentLength], [lastSlash], [dots] and [code].
    [join] is the one of a POSIX host. *)

Module Posix.

Record LoopState := {
  res : string;
  lastSegmentLength : Z;
  lastSlash : Z;
  dots : Z;
  code : option ascii          (* [None] is [undefined] *)
}.

Definition isPosixPathSeparator (code : option ascii) : bool :=
  bool_decide (code = Some "/"%char).

Definition len (s : string) : Z := Z.of_nat (String.length s).

(** The end of an iteration that has dealt with a separator:
    [lastSlash = i; dots = 0]. *)
Definition at_slash (i : Z) (code : ascii) (res : string) (lastSegmentLength : Z)
    : LoopState :=
  {| res := res; lastSegmentLength := lastSegmentLength;
     lastSlash := i; dots := 0; code := Some code |}.

(** The body of the loop for index [i], once [code] is known. *)
Definition body (path : string) (allowAboveRoot : bool) (i : Z) (code : ascii)
    (st : LoopState) : LoopState :=
  let aboveRoot :=
    if allowAboveRoot then
      at_slash i code (if (0 <? len (res st))%Z then res st +:+ "/.." else "..") 2
    else at_slash i code (res st) (lastSegmentLength st) in
  if isPosixPathSeparator (Some code) then
    if (lastSlash st =? i - 1)%Z || (dots st =? 1)%Z then
      at_slash i code (res st) (lastSegmentLength st)
    else if (dots st =? 2)%Z then
      if (len (res st) <? 2)%Z
         || negb (lastSegmentLength st =? 2)%Z
         || negb (bool_decide (Js.charCodeAt (res st) (len (res st) - 1) = Some "."%char))
         || negb (bool_decide (Js.charCodeAt (res st) (len (res st) - 2) = Some "."%char))
      then
        if (2 <? len (res st))%Z then
          let lastSlashIndex := Js.lastIndexOf "/" (res st) in
          if (lastSlashIndex =? -1)%Z then at_slash i code "" 0
          else
            let res' := Js.slice (res st) 0 lastSlashIndex in
            at_slash i code res' (len res' - 1 - Js.lastIndexOf "/" res')
        else if (len (res st) =? 2)%Z || (len (res st) =? 1)%Z then at_slash i code "" 0
        else aboveRoot
      else aboveRoot
    else
      at_slash i code
        (if (0 <? len (res st))%Z
         then res st +:+ "/" +:+ Js.slice path (lastSlash st + 1) i
         else Js.slice path (lastSlash st + 1) i)
        (i - lastSlash st - 1)
  else if bool_decide (code = "."%char) && negb (dots st =? -1)%Z then
    {| res := res st; lastSegmentLength := lastSegmentLength st;
       lastSlash := lastSlash st; dots := dots st + 1; code := Some code |}
  else
    {| res := res st; lastSegmentLength := lastSegmentLength st;
       lastSlash := lastSlash st; dots := -1; code := Some code |}.

(** [for (let i = 0, len = path.length; i <= len; ++i)], with [n]
    iterations left.  Past the last unit the loop stops if that unit was a
    separator, and otherwise runs the body once more as if on a "/". *)
Fixpoint loop (path : string) (allowAboveRoot : bool) (n : nat) (i : Z) (st : LoopState)
    : string :=
  match n with
  | 0 => res st
  | S n' =>
      if (i <? len path)%Z then
        match Js.charCodeAt path i with
        | Some c => loop path allowAboveRoot n' (i + 1) (body path allowAboveRoot i c st)
        | None => res st
        end
      else if isPosixPathSeparator (code st) then res st
      else loop path allowAboveRoot n' (i + 1) (body path allowAboveRoot i "/" st)
  end.

Definition normalizeString (path : string) (allowAboveRoot : bool) : string :=
  loop path allowAboveRoot (S (String.length path)) 0
    {| res := ""; lastSegmentLength := 0; lastSlash := -1; dots := 0; code := None |}.

(** [path.charCodeAt(path.length - 1) === CHAR_FORWARD_SLASH] *)
Fixpoint endsWithSlash (path : string) : bool :=
  match path with
  | "" => false
  | String c "" => bool_decide (c = "/"%char)
  | String _ rest => endsWithSlash rest
  end.

Definition normalize (path : string) : string :=
  if decide (path = "") then "."
  else
    let isAbsolute := Js.startsWith "/" path in
    let trailingSeparator := endsWithSlash path in
    let path := normalizeString path (negb isAbsolute) in
    let path := if decide (path = "") then (if isAbsolute then path else ".") else path in
    let path :=
      if decide (path = "") then path
      else if trailingSeparator then path +:+ "/" else path in
    if isAbsolute then "/" +:+ path else path.

(** [join(...paths)]: the non-empty arguments, joined with "/" and
    normalized; "." when there is none. *)
Definition join (paths : list string) : string :=
  match filter (fun p => p <> "") paths with
  | [] => "."
  | nonempty => normalize (Js.join "/" nonempty)
  end.

(** *** The loop, segment by segment

    What the loop computes, stated on the segments of the path between its
    separators: the loop keeps the segments met so far and, at the end of
    each segment,
    - skips an empty segment and the segment ".",
    - on "..", drops the last kept segment when there is one that is not
      ".." itself, and otherwise keeps ".." if [allowAboveRoot] and skips it
      if not,
    - keeps any other segment.
    The kept segments, held last one first, are joined with "/". *)

Definition step (allowAboveRoot : bool) (kept : list string) (seg : string) : list string :=
  if decide (seg = "" \/ seg = ".") then kept
  else if decide (seg = "..") then
    match kept with
    | top :: below =>
        if decide (top = "..") then (if allowAboveRoot then ".." :: kept else kept)
        else below
    | [] => if allowAboveRoot then [".."] else []
    end
  else seg :: kept.

Fixpoint resolve (allowAboveRoot : bool) (segs : list string) (kept : list string)
    : list string :=
  match segs with
  | [] => kept
  | seg :: rest => resolve allowAboveRoot rest (step allowAboveRoot kept seg)
  end.

Definition normalizeSegments (path : string) (allowAboveRoot : bool) : string :=
  Js.join "/" (reverse (resolve allowAboveRoot (Js.split "/" path) [])).

End Posix.

(** ** Exceptions and results *)

Inductive Exception :=
| NotFound (msg : string)          (* an instance of Deno.errors.NotFound *)
| HostError (name msg : string)    (* any other error raised by the host *)
| Error (msg : string)             (* [new Error(msg)] *)
| SyntaxError (msg : string)       (* raised by [JSON.parse] *)
| Exit (code : nat).               (* [Deno.exit(code)] *)

Inductive Result (A : Type) :=
| Ok (a : A)
| Throw (e : Exception).
Arguments Ok {A} a.
Arguments Throw {A} e.

#[global] Instance Exception_eq_dec : EqDecision Exception.
Proof. solve_decision. Defined.

(** [err instanceof Deno.errors.NotFound] *)
Definition instanceof_NotFound (err : Exception) : bool :=
  match err with NotFound _ => true | _ => false end.

(** ** The file system as the scanner sees it *)

Record FileInfo := { isDirectory : bool }.

Record WalkEntry := { path : string }.

Record WalkOptions := {
  includeDirs : bool;
  includeFiles : bool;
  exts : list string
}.

(** What the async iterator returned by [walk] does when it is advanced:
    it is exhausted, it yields an entry, or it rejects. *)
Inductive WalkStream :=
| WalkDone
| WalkYield (entry : WalkEntry) (rest : WalkStream)
| WalkThrow (err : Exception).

Record FileSystem := {
  stat : string -> Result FileInfo;             (* await Deno.stat(dir) *)
  walk : string -> WalkOptions -> WalkStream;   (* walk(dir, options), from deps.ts *)
  relative : string -> string -> string;        (* relative(from, to), from deps.ts *)
  rejects_first : string -> string -> bool      (* of two scans started together that
                                                   both reject, whether the scan of the
                                                   first directory rejects first *)
}.

(** ** [collectDir] *)

(** [relative(dir, entry.path).split(".").slice(0, -1).join(".")] *)
Definition fileNameWithoutExt (rel : string) : string :=
  Js.join "." (Js.slice_0_m1 (Js.split "." rel)).

Definition conflict_message (dir name : string) : string :=
  "Route conflict detected. Multiple files have the same name: " +:+ dir +:+ name.

(** The [for await] loop of [collectDir]; [paths] and [fileNames] are the
    array and the [Set] the loop updates. *)
Fixpoint collectDir_loop (fs : FileSystem) (dir : string) (routesFolder : WalkStream)
    (paths : list string) (fileNames : gset string) : Result (list string) :=
  match routesFolder with
  | WalkDone => Ok paths
  | WalkThrow err => Throw err
  | WalkYield entry rest =>
      let name := fileNameWithoutExt (relative fs dir (path entry)) in
      if decide (name ∈ fileNames) then Throw (Error (conflict_message dir name))
      else collectDir_loop fs dir rest
             (paths ++ [relative fs dir (path entry)]) ({[ name ]} ∪ fileNames)
  end.

Definition walk_options : WalkOptions :=
  {| includeDirs := false; includeFiles := true; exts := ["tsx"; "jsx"; "ts"; "js"] |}.

Definition collectDir (fs : FileSystem) (dir : string) : Result (list string) :=
  match stat fs dir with
  | Throw err => if instanceof_NotFound err then Ok [] else Throw err
  | Ok st =>
      if negb (isDirectory st) then Ok []
      else match collectDir_loop fs dir (walk fs dir walk_options) [] ∅ with
           | Ok paths => Ok (Js.sort paths)
           | Throw err => Throw err
           end
  end.

(** The entries a stream yields before it ends, and how it ends. *)
Fixpoint walk_entries (w : WalkStream) : list WalkEntry :=
  match w with
  | WalkYield entry rest => entry :: walk_entries rest
  | _ => []
  end.

Fixpoint walk_end (w : WalkStream) : option Exception :=
  match w with
  | WalkDone => None
  | WalkYield _ rest => walk_end rest
  | WalkThrow err => Some err
  end.

(** A stream that yields [entries] and then goes on as [rest]. *)
Fixpoint walk_app (entries : list WalkEntry) (rest : WalkStream) : WalkStream :=
  match entries with
  | [] => rest
  | entry :: entries' => WalkYield entry (walk_app entries' rest)
  end.

(** The relative path and the logical name of a visited entry. *)
Definition entry_rel (fs : FileSystem) (dir : string) (entry : WalkEntry) : string :=
  relative fs dir (path entry).

Definition entry_name (fs : FileSystem) (dir : string) (entry : WalkEntry) : string :=
  fileNameWithoutExt (entry_rel fs dir entry).

(** The first name of [names] that is already in [seen] or occurs earlier in
    [names]: the name the loop of [collectDir] stops at. *)
Fixpoint first_conflict (names : list string) (seen : gset string) : option string :=
  match names with
  | [] => None
  | n :: rest =>
      if decide (n ∈ seen) then Some n else first_conflict rest ({[ n ]} ∪ seen)
  end.

(** The relative paths a scan of [dir] visits. *)
Definition visited (fs : FileSystem) (dir : string) : list string :=
  match stat fs dir with
  | Ok info =>
      if isDirectory info
      then entry_rel fs dir <$> walk_entries (walk fs dir walk_options)
      else []
  | Throw _ => []
  end.

(** ** [toImportSpecifier] *)

Definition toImportSpecifier (file : string) : string :=
  let specifier := Js.replaceAll "\" "/" (Posix.normalize file) in
  if negb (Js.startsWith "." specifier) then "./" +:+ specifier else specifier.

(** *** Normal forms of [posix.normalize], used in the proofs

    A segment is ordinary when [normalizeString] keeps it as it is.  The
    segments kept for a relative path are ordinary ones on top of a run of
    "..".  [render] is what [normalize] makes of the kept segments of a
    relative path. *)

Definition ordinary (seg : string) : Prop :=
  seg <> "" /\ seg <> "." /\ seg <> ".." /\ Js.includes "/" seg = false.

Inductive resolved : list string -> Prop :=
| resolved_dots (k : nat) : resolved (replicate k "..")
| resolved_push (seg : string) (kept : list string) :
    ordinary seg -> resolved kept -> resolved (seg :: kept).

(** The value of [dots] after the units of [seg]: their number when they
    are all dots, and [-1] if not. *)
Fixpoint all_dots (seg : string) : bool :=
  match seg with
  | "" => true
  | String c rest => bool_decide (c = "."%char) && all_dots rest
  end.

Definition dots_of (seg : string) : Z :=
  if all_dots seg then Posix.len seg else (-1)%Z.

Definition top_len (kept : list string) : Z :=
  match kept with
  | top :: _ => Posix.len top
  | [] => 0%Z
  end.

(** The state of the loop of [normalizeString] once it has read [pre], up
    to and including a separator, and then the units [seg] of the current
    segment, having kept the segments [kept]. *)
Definition loop_inv (pre seg : string) (kept : list string) (st : Posix.LoopState) : Prop :=
  Posix.res st = Js.join "/" (reverse kept) /\
  Posix.lastSegmentLength st = top_len kept /\
  Posix.lastSlash st = (Posix.len pre - 1)%Z /\
  Posix.dots st = dots_of seg /\
  (seg <> "" -> Posix.isPosixPathSeparator (Posix.code st) = false) /\
  Forall (fun s => s <> "" /\ Js.includes "/" s = false) kept /\
  Js.includes "/" seg = false.

Definition render (kept : list string) (trailing : bool) : string :=
  let body := Js.join "/" (reverse kept) in
  let body := if decide (body = "") then "." else body in
  if trailing then body +:+ "/" else body.

(** A path begins with a relative-path marker when it begins with "./" or
    with "../". *)
Definition begins_with_relative_marker (s : string) : bool :=
  Js.startsWith "./" s || Js.startsWith "../" s.

(** ** [JSON.stringify] and [JSON.parse]

    Host builtins.  [Json.quote] is [JSON.stringify] on a string: the
    double quote and the backslash are escaped, so are the code units below
    32.  Code units are 8 bits wide here, so a "\u" escape above 255 is
    outside the model. *)

Module Json.

Definition dquote : ascii := "034"%char.
Definition backslash : ascii := "\"%char.

Definition hex_digit (n : N) : ascii :=
  match n with
  | 0 => "0" | 1 => "1" | 2 => "2" | 3 => "3" | 4 => "4" | 5 => "5" | 6 => "6"
  | 7 => "7" | 8 => "8" | 9 => "9" | 10 => "a" | 11 => "b" | 12 => "c"
  | 13 => "d" | 14 => "e" | _ => "f"
  end%char%N.

Definition quote_unit (c : ascii) : string :=
  if decide (c = dquote) then String backslash (String dquote "")
  else if decide (c = backslash) then String backslash (String backslash "")
  else if decide (c = "008"%char) then String backslash "b"
  else if decide (c = "012"%char) then String backslash "f"
  else if decide (c = "010"%char) then String backslash "n"
  else if decide (c = "013"%char) then String backslash "r"
  else if decide (c = "009"%char) then String backslash "t"
  else if (N_of_ascii c <? 32)%N then
    String backslash
      (String "u" (String "0" (String "0"
         (String (hex_digit (N_of_ascii c / 16))
            (String (hex_digit (N_of_ascii c mod 16)) "")))))
  else String c "".

Fixpoint quote_units (s : string) : string :=
  match s with
  | "" => ""
  | String c rest => quote_unit c +:+ quote_units rest
  end.

Definition quote (s : string) : string :=
  String dquote (quote_units s +:+ String dquote "").

(** [JSON.stringify] on an array of strings. *)
Definition stringify_array (xs : list string) : string :=
  "[" +:+ Js.join "," (quote <$> xs) +:+ "]".

(** Reading back.  [unescape] is the unit a two-unit escape stands for. *)
Definition unescape (e : ascii) : option ascii :=
  if decide (e = dquote) then Some dquote
  else if decide (e = backslash) then Some backslash
  else if decide (e = "/"%char) then Some "/"%char
  else if decide (e = "b"%char) then Some "008"%char
  else if decide (e = "f"%char) then Some "012"%char
  else if decide (e = "n"%char) then Some "010"%char
  else if decide (e = "r"%char) then Some "013"%char
  else if decide (e = "t"%char) then Some "009"%char
  else None.

Definition unhex (c : ascii) : option N :=
  let n := N_of_ascii c in
  if (48 <=? n)%N && (n <=? 57)%N then Some (n - 48)%N
  else if (97 <=? n)%N && (n <=? 102)%N then Some (n - 87)%N
  else if (65 <=? n)%N && (n <=? 70)%N then Some (n - 55)%N
  else None.

Definition unhex4 (h1 h2 h3 h4 : ascii) : option N :=
  match unhex h1, unhex h2, unhex h3, unhex h4 with
  | Some a, Some b, Some c, Some d => Some (((a * 16 + b) * 16 + c) * 16 + d)%N
  | _, _, _, _ => None
  end.

Definition cons_unit (c : ascii) (r : option (string * string)) : option (string * string) :=
  match r with
  | Some (s, rest) => Some (String c s, rest)
  | None => None
  end.

(** The units of a string literal after its opening quote, and what follows
    the closing quote. *)
Fixpoint parse_string_body (s : string) : option (string * string) :=
  match s with
  | "" => None
  | String c s1 =>
      if decide (c = dquote) then Some ("", s1)
      else if decide (c = backslash) then
        match s1 with
        | "" => None
        | String e s2 =>
            match unescape e with
            | Some x => cons_unit x (parse_string_body s2)
            | None =>
                if decide (e = "u"%char) then
                  match s2 with
                  | String h1 (String h2 (String h3 (String h4 s3))) =>
                      match unhex4 h1 h2 h3 h4 with
                      | Some n =>
                          if (n <? 256)%N
                          then cons_unit (ascii_of_N n) (parse_string_body s3)
                          else None
                      | None => None
                      end
                  | _ => None
                  end
                else None
            end
        end
      else if (N_of_ascii c <? 32)%N then None
      else cons_unit c (parse_string_body s1)
  end.

(** The elements of a non-empty array, up to and including its "]". *)
Fixpoint parse_elements (fuel : nat) (s : string) : option (list string * string) :=
  match fuel with
  | 0 => None
  | S fuel' =>
      match s with
      | "" => None
      | String c s1 =>
          if decide (c = dquote) then
            match parse_string_body s1 with
            | Some (x, String d rest) =>
                if decide (d = ","%char) then
                  match parse_elements fuel' rest with
                  | Some (xs, rest') => Some (x :: xs, rest')
                  | None => None
                  end
                else if decide (d = "]"%char) then Some ([x], rest)
                else None
            | _ => None
            end
          else None
      end
  end.

Definition parse_array (s : string) : option (list string * string) :=
  match s with
  | String c s1 =>
      if decide (c = "["%char) then
        match s1 with
        | String d rest =>
            if decide (d = "]"%char) then Some ([], rest)
            else parse_elements (String.length s1) s1
        | "" => None
        end
      else None
  | "" => None
  end.

(** [s] without its prefix [p], when it has it. *)
Fixpoint strip_prefix (p s : string) : option string :=
  match p with
  | "" => Some s
  | String a p' =>
      match s with
      | String b s' => if decide (a = b) then strip_prefix p' s' else None
      | "" => None
      end
  end.

End Json.

(** ** The manifest *)

Record Manifest := { routes : list string; islands : list string }.

#[global] Instance Manifest_eq_dec : EqDecision Manifest.
Proof. solve_decision. Defined.

(** [JSON.stringify(manifest)]: the keys come in the order [collect] builds
    the object. *)
Definition JSON_stringify (m : Manifest) : string :=
  "{" +:+ Json.quote "routes" +:+ ":" +:+ Json.stringify_array (routes m) +:+
  "," +:+ Json.quote "islands" +:+ ":" +:+ Json.stringify_array (islands m) +:+ "}".

(** [JSON.parse], on the texts [dev] stores.  The source gives the parsed
    value the type [Manifest] without looking at it, and the only text the
    program ever stores in the variable is [JSON.stringify] of a manifest:
    the definition reads these texts, and an [Ok] result is the value
    [JSON.parse] returns.  Every other text is outside the model: [JSON.parse]
    raises on some of them (those that are not JSON) and returns a value that
    is no manifest on the others ("{}", "null"), and the [Throw] below tells
    the two apart in no way.  The properties of [dev] are therefore stated
    for a variable that is unset, empty or holds a stored manifest
    ([previous_manifest ... = Ok _]), and none is stated for a cycle in which
    this definition gives [Throw]. *)
Definition JSON_parse (s : string) : Result Manifest :=
  match
    s1 ← Json.strip_prefix ("{" +:+ Json.quote "routes" +:+ ":") s;
    '(r, s2) ← Json.parse_array s1;
    s3 ← Json.strip_prefix ("," +:+ Json.quote "islands" +:+ ":") s2;
    '(i, s4) ← Json.parse_array s3;
    if decide (s4 = "}") then Some {| routes := r; islands := i |} else None
  with
  | Some m => Ok m
  | None => Throw (SyntaxError "Unexpected token in JSON")
  end.

(** ** [collect] *)

(** [Promise.all] of the two scans, which run interleaved and only read the
    tree.  The promise resolves with both results once both scans resolve,
    and rejects as soon as one of them rejects, with that rejection: when
    both scans reject, the error is the one of the scan that rejects first,
    which the host decides ([rejects_first]). *)
Definition collect (fs : FileSystem) (directory : string) : Result Manifest :=
  match collectDir fs (Posix.join [directory; "./routes"]),
        collectDir fs (Posix.join [directory; "./islands"]) with
  | Ok routes, Ok islands => Ok {| routes := routes; islands := islands |}
  | Throw err, Ok _ => Throw err
  | Ok _, Throw err => Throw err
  | Throw routesErr, Throw islandsErr =>
      if rejects_first fs (Posix.join [directory; "./routes"])
                          (Posix.join [directory; "./islands"])
      then Throw routesErr else Throw islandsErr
  end.

(** ** Effects

    The state the program changes: the environment variables of the process
    and the text files it writes.  Every effect is also recorded, in order. *)

Record World := {
  env : gmap string string;
  files : gmap string string
}.

Inductive Event :=
| EnvGet (key : string)
| EnvSet (key value : string)
| Spawn (command : string) (args : list string)
| WriteTextFile (path content : string)
| ConsoleLog (msg : string)
| ConsoleError (msg : string)
| Build (manifestPath : string)
| Import (specifier : string).

#[global] Instance Event_eq_dec : EqDecision Event.
Proof. solve_decision. Defined.

Record Run (A : Type) := {
  outcome : Result A;
  world : World;
  events : list Event
}.
Arguments outcome {A} _.
Arguments world {A} _.
Arguments events {A} _.

Definition M (A : Type) : Type := World -> Run A.

#[global] Instance M_ret : MRet M := fun A a w =>
  {| outcome := Ok a; world := w; events := [] |}.

#[global] Instance M_bind : MBind M := fun A B k m w =>
  let r := m w in
  match outcome r with
  | Ok a =>
      let r' := k a (world r) in
      {| outcome := outcome r'; world := world r'; events := events r ++ events r' |}
  | Throw err => {| outcome := Throw err; world := world r; events := events r |}
  end.

Definition throw {A} (err : Exception) : M A := fun w =>
  {| outcome := Throw err; world := w; events := [] |}.

(** [await] of a computation that only reads. *)
Definition await {A} (r : Result A) : M A :=
  match r with Ok a => mret a | Throw err => throw err end.

Definition emit (e : Event) : M unit := fun w =>
  {| outcome := Ok tt; world := w; events := [e] |}.

(** [Deno.env.get(key)] and [Deno.env.set(key, value)] *)
Definition env_get (key : string) : M (option string) := fun w =>
  {| outcome := Ok (env w !! key); world := w; events := [EnvGet key] |}.

Definition env_set (key value : string) : M unit := fun w =>
  {| outcome := Ok tt;
     world := {| env := <[key := value]> (env w); files := files w |};
     events := [EnvSet key value] |}.

(** [Deno.writeTextFile(path, content)]: creates the file or overwrites it. *)
Definition writeTextFile (path content : string) : M unit := fun w =>
  {| outcome := Ok tt;
     world := {| env := env w; files := <[path := content]> (files w) |};
     events := [WriteTextFile path content] |}.

(** ** The host of [generate] and [dev] *)

(** What becomes of the formatter subprocess, given the text piped to it:
    [spawn] throws, the pipe to its standard input rejects, or it runs to
    its end and [output()] resolves with its status and what it printed. *)
Inductive FmtRun :=
| SpawnThrows (err : Exception)
| PipeThrows (err : Exception)
| Exited (success : bool) (code : nat) (stdout : string).

Record Host := {
  fs : FileSystem;
  execPath : string;                      (* Deno.execPath() *)
  fmt : string -> FmtRun;                 (* the run of [execPath fmt -] *)
  deno_version : string;                  (* Deno.version.deno *)
  gte : string -> string -> bool;         (* semver gte, from deps.ts *)
  args : list string;                     (* Deno.args *)
  href : string -> string -> string;      (* new URL(entrypoint, base).href *)
  base_dir : string -> string;            (* dirname(fromFileUrl(base)) *)
  build : string -> Result unit;          (* build(), from build.ts *)
  import : string -> Result unit          (* the dynamic import *)
}.

(** ** [generate] *)

Definition nl : string := String "010"%char "".
Definition q : string := String Json.dquote "".

Definition header : string :=
  "// DO NOT EDIT. This file is generated by Fresh." +:+ nl +:+
  "// This file SHOULD be checked into source version control." +:+ nl +:+
  "// This file is automatically updated during development when running `dev.ts`." +:+ nl.

Definition routeImport (file : string) (i : nat) : string :=
  "import * as $" +:+ pretty i +:+ " from " +:+ q +:+
  toImportSpecifier (Posix.join ["routes"; file]) +:+ q +:+ ";".

Definition islandImport (file : string) (i : nat) : string :=
  "import * as $$" +:+ pretty i +:+ " from " +:+ q +:+
  toImportSpecifier (Posix.join ["islands"; file]) +:+ q +:+ ";".

Definition routeEntry (file : string) (i : nat) : string :=
  Json.quote (toImportSpecifier (Posix.join ["routes"; file])) +:+ ": $" +:+ pretty i +:+ ",".

Definition islandEntry (file : string) (i : nat) : string :=
  Json.quote (toImportSpecifier (Posix.join ["islands"; file])) +:+ ": $$" +:+ pretty i +:+ ",".

(** The template literal [output]. *)
Definition output (manifest : Manifest) : string :=
  header +:+ nl +:+
  Js.join nl (Js.mapi routeImport (routes manifest)) +:+ nl +:+
  Js.join nl (Js.mapi islandImport (islands manifest)) +:+ nl +:+
  nl +:+
  "const manifest = {" +:+ nl +:+
  "  routes: {" +:+ nl +:+
  "    " +:+ Js.join (nl +:+ "    ") (Js.mapi routeEntry (routes manifest)) +:+ nl +:+
  "  }," +:+ nl +:+
  "  islands: {" +:+ nl +:+
  "    " +:+ Js.join (nl +:+ "    ") (Js.mapi islandEntry (islands manifest)) +:+ nl +:+
  "  }," +:+ nl +:+
  "  baseUrl: import.meta.url," +:+ nl +:+
  "};" +:+ nl +:+
  nl +:+
  "export default manifest;" +:+ nl.

(** Spawning the formatter, piping [text] to it and awaiting its output:
    the value is the [stdout] the program decodes. *)
Definition format (h : Host) (text : string) : M string :=
  emit (Spawn (execPath h) ["fmt"; "-"]);;
  match fmt h text with
  | SpawnThrows err => throw err
  | PipeThrows err => throw err
  | Exited _ _ stdout => mret stdout
  end.

Definition generated_message (manifest : Manifest) : string :=
  "%cThe manifest has been generated for " +:+ pretty (length (routes manifest)) +:+
  " routes and " +:+ pretty (length (islands manifest)) +:+ " islands.".

Definition generate (h : Host) (directory : string) (manifest : Manifest) : M unit :=
  manifestStr ← format h (output manifest);
  let manifestPath := Posix.join [directory; "./fresh.gen.ts"] in
  writeTextFile manifestPath manifestStr;;
  emit (ConsoleLog (generated_message manifest)).

(** ** [arraysEqual] *)

(** The loop [for (let i = 0; i < a.length; ++i)], from index [i] on, with
    [n] indices left. *)
Fixpoint arraysEqual_from (a b : list string) (i n : nat) : bool :=
  match n with
  | 0 => true
  | S n' =>
      if decide (a !! i <> b !! i) then false else arraysEqual_from a b (S i) n'
  end.

Definition arraysEqual (a b : list string) : bool :=
  if decide (length a <> length b) then false
  else arraysEqual_from a b 0 (length a).

(** ** [dev]

    The world and the record of effects hold what [dev] and [generate] do
    themselves.  Three calls of [dev] leave the module and are not followed:
    [updateCheck(DAY).catch(() => {})], which is not awaited and whose
    failure is dropped, is left out; [build] and the dynamic import of the
    entrypoint, which end the cycle, are recorded as one event each with the
    argument they get, and their result is the answer of the host.  What
    these three do to files or to the environment is not part of the world:
    [world (dev ...)] is the world as [dev] and [generate] leave it. *)

Definition MIN_DENO_VERSION : string := "1.31.0".

(** [s.includes(t)] *)
Definition includes_text (t s : string) : bool :=
  bool_decide (is_Some (String.index 0 t s)).

Definition version_message (h : Host) : string :=
  "Deno version " +:+ MIN_DENO_VERSION +:+
  " or higher is required. Please update Deno." +:+ nl +:+ nl +:+
  (if includes_text "homebrew" (execPath h)
   then "You seem to have installed Deno via homebrew. To update, run: `brew upgrade deno`"
        +:+ nl
   else "To update, run: `deno upgrade`" +:+ nl).

(** Modelled from the spec: [error] of [./error.ts] is not under [src/].
    The spec calls the failure of the version gate fatal: the message is
    reported and the process exits. *)
Definition error {A} (message : string) : M A :=
  emit (ConsoleError message);; throw (Exit 1).

Definition ensureMinDenoVersion (h : Host) : M unit :=
  if negb (gte h (deno_version h) MIN_DENO_VERSION) then error (version_message h)
  else mret tt.

Definition PREVIOUS_MANIFEST : string := "FRSH_DEV_PREVIOUS_MANIFEST".

Definition empty_manifest : Manifest := {| routes := []; islands := [] |}.

(** [if (prevManifest) JSON.parse(prevManifest) else { islands: [], routes: [] }]:
    an unset variable and an empty text both count as absent. *)
Definition previous_manifest (prevManifest : option string) : Result Manifest :=
  match prevManifest with
  | None => Ok empty_manifest
  | Some text => if decide (text = "") then Ok empty_manifest else JSON_parse text
  end.

Definition manifestChanged (newManifest currentManifest : Manifest) : bool :=
  negb (arraysEqual (routes newManifest) (routes currentManifest)) ||
  negb (arraysEqual (islands newManifest) (islands currentManifest)).

(** The end of the cycle: [build(join(dir, "fresh.gen.ts"), options)] when
    the arguments hold [build], the dynamic import of the entrypoint
    otherwise.  Both calls leave the module: each is recorded with the
    argument it gets, and it resolves or rejects as the host answers. *)
Definition handoff (h : Host) (dir entrypoint : string) : M unit :=
  if decide ("build" ∈ args h) then
    emit (Build (Posix.join [dir; "fresh.gen.ts"]));;
    await (build h (Posix.join [dir; "fresh.gen.ts"]))
  else
    emit (Import entrypoint);; await (import h entrypoint).

Definition dev (h : Host) (base entrypoint : string) : M unit :=
  ensureMinDenoVersion h;;
  let entrypoint := href h entrypoint base in
  let dir := base_dir h base in
  prevManifest ← env_get PREVIOUS_MANIFEST;
  currentManifest ← await (previous_manifest prevManifest);
  newManifest ← await (collect (fs h) dir);
  env_set PREVIOUS_MANIFEST (JSON_stringify newManifest);;
  (if manifestChanged newManifest currentManifest then generate h dir newManifest
   else mret tt);;
  handoff h dir entrypoint.

(** ** Reading the record of effects *)

Definition is_spawn (e : Event) : bool :=
  match e with Spawn _ _ => true | _ => false end.

Definition is_write (e : Event) : bool :=
  match e with WriteTextFile _ _ => true | _ => false end.

Definition is_env_get (e : Event) : bool :=
  match e with EnvGet _ => true | _ => false end.

Definition is_env_set (e : Event) : bool :=
  match e with EnvSet _ _ => true | _ => false end.

(** How many of the recorded effects satisfy [p]. *)
Definition count (p : Event -> bool) (evs : list Event) : nat :=
  length (List.filter p evs).

(** ** Hosts used to run the definitions on concrete inputs *)

(** [relative(dir, p)] for a path [p] below [dir] on a POSIX host: what
    follows [dir] and the separator. *)
Definition relative_below (dir p : string) : string :=
  if String.prefix (dir +:+ "/") p
  then String.substring (String.length dir + 1) (String.length p) p
  else p.

Definition fs_of (st : Result FileInfo) (w : WalkStream) : FileSystem :=
  {| stat := fun _ => st; walk := fun _ _ => w; relative := relative_below;
     rejects_first := fun _ _ => true |}.

Definition a_directory : Result FileInfo := Ok {| isDirectory := true |}.
Definition a_plain_file : Result FileInfo := Ok {| isDirectory := false |}.

Definition walk_of (paths : list string) (last : WalkStream) : WalkStream :=
  walk_app ((fun p => {| path := p |}) <$> paths) last.

(** Two files that differ in their extension only. *)
Definition fs_conflict : FileSystem :=
  fs_of a_directory
    (walk_of ["/p/routes/index.tsx"; "/p/routes/a/foo.ts"; "/p/routes/a/foo.tsx";
              "/p/routes/b.ts"] WalkDone).

(** The same three files, met in two different orders. *)
Definition fs_order1 : FileSystem :=
  fs_of a_directory
    (walk_of ["/p/routes/index.tsx"; "/p/routes/about.tsx"; "/p/routes/api/x.ts"] WalkDone).

Definition fs_order2 : FileSystem :=
  fs_of a_directory
    (walk_of ["/p/routes/api/x.ts"; "/p/routes/index.tsx"; "/p/routes/about.tsx"] WalkDone).

Definition permission_denied : Exception :=
  HostError "PermissionDenied" "Permission denied (os error 13)".

(** A traversal that fails after one entry. *)
Definition fs_walk_fails : FileSystem :=
  fs_of a_directory (walk_of ["/p/routes/index.tsx"] (WalkThrow permission_denied)).

(** A host for a project at [/p], on which the formatter is the identity. *)
Definition host_of (tree : FileSystem) (run : string -> FmtRun) (argv : list string) : Host :=
  {| fs := tree;
     execPath := "/usr/bin/deno";
     fmt := run;
     deno_version := "1.31.0";
     gte := fun _ _ => true;
     args := argv;
     href := fun entrypoint base => "file:///p/" +:+ entrypoint;
     base_dir := fun _ => "/p";
     build := fun _ => Ok tt;
     import := fun _ => Ok tt |}.

Definition fmt_identity (text : string) : FmtRun := Exited true 0 text.
Definition fmt_fails (text : string) : FmtRun := Exited false 1 "".
Definition fmt_missing (text : string) : FmtRun :=
  SpawnThrows (NotFound "Failed to spawn: No such file or directory (os error 2)").

(** A project with two routes and one island. *)
Definition project_walk (dir : string) : WalkStream :=
  if decide (dir = "/p/routes")
  then walk_of ["/p/routes/index.tsx"; "/p/routes/about.tsx"] WalkDone
  else if decide (dir = "/p/islands")
  then walk_of ["/p/islands/Counter.tsx"] WalkDone
  else WalkDone.

Definition project_fs : FileSystem :=
  {| stat := fun _ => a_directory;
     walk := fun dir _ => project_walk dir;
     relative := relative_below;
     rejects_first := fun _ _ => true |}.

Definition project_manifest : Manifest :=
  {| routes := ["about.tsx"; "index.tsx"]; islands := ["Counter.tsx"] |}.

Definition fresh_world : World := {| env := ∅; files := ∅ |}.

(** The project after a first cycle: the registry file is there. *)
Definition world_with_registry : World :=
  {| env := {[ PREVIOUS_MANIFEST := JSON_stringify project_manifest ]};
     files := {[ "/p/fresh.gen.ts" := output project_manifest ]} |}.

(** ** Parts of the template of [generate]

    The binding [$${i}] of a route and the binding [$$${i}] of an island. *)

Definition routeBinding (i : nat) : string := "$" +:+ pretty i.

Definition islandBinding (i : nat) : string := "$$" +:+ pretty i.

(** A string [JSON.stringify] has nothing to escape in: no double quote, no
    backslash, no code unit below 32. *)
Fixpoint plain (s : string) : bool :=
  match s with
  | "" => true
  | String c rest =>
      negb (bool_decide (c = Json.dquote)) && negb (bool_decide (c = Json.backslash))
      && (32 <=? N_of_ascii c)%N && plain rest
  end.

(** ** More hosts *)

(** A runtime older than [MIN_DENO_VERSION], installed by homebrew. *)
Definition host_old_deno : Host :=
  {| fs := project_fs;
     execPath := "/opt/homebrew/bin/deno";
     fmt := fmt_identity;
     deno_version := "1.30.3";
     gte := fun _ _ => false;
     args := [];
     href := fun entrypoint base => "file:///p/" +:+ entrypoint;
     base_dir := fun _ => "/p";
     build := fun _ => Ok tt;
     import := fun _ => Ok tt |}.

(** A project that has neither a [routes] nor an [islands] directory. *)
Definition empty_fs : FileSystem :=
  {| stat := fun _ => Throw (NotFound "No such file or directory (os error 2)");
     walk := fun _ _ => WalkDone;
     relative := relative_below;
     rejects_first := fun _ _ => true |}.

(** A project whose two directories cannot be read, the scan of [islands]
    being the first to reject. *)
Definition fs_unreadable : FileSystem :=
  {| stat := fun dir =>
       Throw (HostError "PermissionDenied"
                ("Permission denied (os error 13): stat '" +:+ dir +:+ "'"));
     walk := fun _ _ => WalkDone;
     relative := relative_below;
     rejects_first := fun _ _ => false |}.

(** A project whose routes changed since the stored snapshot. *)
Definition world_with_old_snapshot : World :=
  {| env := {[ PREVIOUS_MANIFEST :=
                 JSON_stringify {| routes := ["index.tsx"]; islands := [] |} ]};
     files := {[ "/p/fresh.gen.ts" := output {| routes := ["index.tsx"]; islands := [] |} ]} |}.

(** ** The generated module as the specification describes it

    These definitions follow the words of the specification, not the
    template of [generate]; the properties compare them with [output].

    The module, line by line: the three comment lines of the header, an
    empty line, one import statement per route and one per island, and the
    registry literal with one line per entry in each of its two sub-objects,
    followed by the [baseUrl] field and the default export.
    [routeSpecifier] and [islandSpecifier] give the import specifier of an
    entry, and [key] the text of a specifier as an object key.  A group of
    no line at all still takes one line of the text, [blank]. *)

Definition double_quoted (s : string) : string :=
  String "034"%char (s +:+ String "034"%char "").

Definition spec_lines_or (blank : string) (ls : list string) : list string :=
  match ls with
  | [] => [blank]
  | _ => ls
  end.

Definition spec_module_lines
    (routeSpecifier islandSpecifier key : string -> string) (m : Manifest) : list string :=
  ["// DO NOT EDIT. This file is generated by Fresh.";
   "// This file SHOULD be checked into source version control.";
   "// This file is automatically updated during development when running `dev.ts`.";
   ""] ++
  spec_lines_or ""
    (imap (fun (i : nat) file =>
             "import * as $" +:+ pretty i +:+ " from " +:+
             double_quoted (routeSpecifier file) +:+ ";") (routes m)) ++
  spec_lines_or ""
    (imap (fun (i : nat) file =>
             "import * as $$" +:+ pretty i +:+ " from " +:+
             double_quoted (islandSpecifier file) +:+ ";") (islands m)) ++
  [""; "const manifest = {"; "  routes: {"] ++
  spec_lines_or "    "
    (imap (fun (i : nat) file =>
             "    " +:+ key (routeSpecifier file) +:+ ": $" +:+ pretty i +:+ ",")
          (routes m)) ++
  ["  },"; "  islands: {"] ++
  spec_lines_or "    "
    (imap (fun (i : nat) file =>
             "    " +:+ key (islandSpecifier file) +:+ ": $$" +:+ pretty i +:+ ",")
          (islands m)) ++
  ["  },"; "  baseUrl: import.meta.url,"; "};"; ""; "export default manifest;"; ""].

(** The relative paths a scan on a POSIX host yields, when they hold nothing
    that [JSON.stringify] escapes: segments separated by "/", none of them
    empty, "." or "..", and no double quote, backslash or control
    character. *)
Definition scanned_plain (file : string) : Prop :=
  plain file = true /\
  exists segs, file = Js.join "/" segs /\ segs <> [] /\ Forall ordinary segs.

(* ================================================================== *)
(** * Properties *)
(* ================================================================== *)

(** ** Strings and arrays *)

Section split_join.
Variable sep : ascii.

Lemma split_nonempty (s : string) : Js.split sep s <> [].
Proof.
  destruct s as [|c s]; simpl; [discriminate|].
  case_decide; [discriminate|]. destruct (Js.split sep s); discriminate.
Qed.

Lemma split_app_sep (a b : string) :
  Js.split sep (a +:+ String sep b) = Js.split sep a ++ Js.split sep b.
Proof.
  induction a as [|x a IH]; simpl.
  - rewrite decide_True by done. done.
  - change (String x a +:+ String sep b) with (String x (a +:+ String sep b)).
    simpl. rewrite IH. case_decide; [done|].
    pose proof (split_nonempty a) as Hne.
    destruct (Js.split sep a); [done|]. done.
Qed.

Lemma split_no_sep (s : string) :
  Js.includes sep s = false -> Js.split sep s = [s].
Proof.
  induction s as [|x s IH]; simpl; [done|].
  case_decide; [done|]. intros Hs. by rewrite IH.
Qed.

Lemma join_cons_cons (d x y : string) (l : list string) :
  Js.join d (x :: y :: l) = x +:+ d +:+ Js.join d (y :: l).
Proof. done. Qed.

Lemma join_split (s : string) : Js.join (String sep "") (Js.split sep s) = s.
Proof.
  induction s as [|x s IH]; simpl; [done|].
  pose proof (split_nonempty s) as Hne.
  destruct (Js.split sep s) as [|seg segs] eqn:E; [done|].
  case_decide as Hx.
  - subst x. rewrite join_cons_cons, IH. done.
  - destruct segs as [|seg' segs].
    + simpl in *. by rewrite IH.
    + rewrite join_cons_cons. rewrite join_cons_cons in IH.
      change (String x seg +:+ String sep "" +:+ Js.join (String sep "") (seg' :: segs))
        with (String x (seg +:+ String sep "" +:+ Js.join (String sep "") (seg' :: segs))).
      by rewrite IH.
Qed.

End split_join.

Lemma slice_0_m1_snoc {A} (l : list A) (x : A) : Js.slice_0_m1 (l ++ [x]) = l.
Proof.
  unfold Js.slice_0_m1. rewrite length_app. simpl.
  replace (length l + 1 - 1) with (length l) by lia.
  by rewrite take_app_length.
Qed.

Lemma fileNameWithoutExt_stem_ext (stem ext : string) :
  Js.includes "." ext = false ->
  fileNameWithoutExt (stem +:+ "." +:+ ext) = stem.
Proof.
  intros Hext. unfold fileNameWithoutExt.
  change ("." +:+ ext) with (String "." ext).
  rewrite split_app_sep, (split_no_sep _ ext Hext), slice_0_m1_snoc.
  apply join_split.
Qed.

(** ** The scanning loop *)

Lemma first_conflict_None (names : list string) (seen : gset string) :
  first_conflict names seen = None <->
  NoDup names /\ (forall n, n ∈ names -> n ∉ seen).
Proof.
  revert seen. induction names as [|n names IH]; intros seen; simpl.
  - split; [intros _|done]. split; [constructor|]. intros n Hn. by apply elem_of_nil in Hn.
  - case_decide as Hn.
    + split; [done|]. intros [_ Hfresh]. exfalso. apply (Hfresh n); [left|done].
    + rewrite IH. split.
      * intros [Hnd Hfresh]. split.
        -- constructor; [|done]. intros Hin. apply (Hfresh n Hin).
           apply elem_of_union. left. by apply elem_of_singleton.
        -- intros m [->|Hm]%elem_of_cons; [done|].
           intros Hseen. apply (Hfresh m Hm). apply elem_of_union. by right.
      * intros [Hnd Hfresh]. apply NoDup_cons in Hnd as [Hnotin Hnd]. split; [done|].
        intros m Hm [->%elem_of_singleton|Hseen]%elem_of_union; [done|].
        apply (Hfresh m); [by right|done].
Qed.

Lemma first_conflict_Some (names : list string) (seen : gset string) (n : string) :
  first_conflict names seen = Some n ->
  exists k, names !! k = Some n /\
            first_conflict (take k names) seen = None /\
            (n ∈ seen \/ n ∈ take k names).
Proof.
  revert seen. induction names as [|m names IH]; intros seen; simpl; [done|].
  case_decide as Hm.
  - intros [= ->]. exists 0. simpl. auto.
  - intros Hc. destruct (IH _ Hc) as (k & Hk & Hpre & Hin).
    exists (S k). simpl. rewrite decide_False by done. split_and!; [done..|].
    destruct Hin as [[->%elem_of_singleton|Hin]%elem_of_union|Hin].
    + right. left.
    + by left.
    + right. by right.
Qed.

Lemma first_conflict_dup (names : list string) (seen : gset string) (i j : nat) (n : string) :
  i < j -> names !! i = Some n -> names !! j = Some n ->
  exists m, first_conflict names seen = Some m.
Proof.
  intros Hij Hi Hj.
  destruct (first_conflict names seen) as [m|] eqn:E; [by exists m|].
  apply first_conflict_None in E as [Hnd _].
  pose proof (NoDup_lookup _ _ _ _ Hnd Hi Hj). lia.
Qed.

Lemma collectDir_loop_spec (fs : FileSystem) (dir : string) (w : WalkStream)
    (paths : list string) (seen : gset string) :
  collectDir_loop fs dir w paths seen =
  match first_conflict (entry_name fs dir <$> walk_entries w) seen with
  | Some n => Throw (Error (conflict_message dir n))
  | None =>
      match walk_end w with
      | Some err => Throw err
      | None => Ok (paths ++ (entry_rel fs dir <$> walk_entries w))
      end
  end.
Proof.
  revert paths seen. induction w as [|entry rest IH|err]; intros paths seen; simpl.
  - by rewrite app_nil_r.
  - fold (entry_rel fs dir entry). fold (entry_name fs dir entry).
    case_decide; [done|]. rewrite IH.
    destruct (first_conflict _ _); [done|].
    destruct (walk_end rest); [done|]. by rewrite <- app_assoc.
  - done.
Qed.

Lemma walk_entries_app (entries : list WalkEntry) (rest : WalkStream) :
  walk_entries (walk_app entries rest) = entries ++ walk_entries rest.
Proof. induction entries as [|e entries IH]; simpl; [done|]. by rewrite IH. Qed.

Lemma walk_end_app (entries : list WalkEntry) (rest : WalkStream) :
  walk_end (walk_app entries rest) = walk_end rest.
Proof. induction entries as [|e entries IH]; simpl; done. Qed.

(** The scan of an existing directory, in one equation. *)
Lemma collectDir_directory (fs : FileSystem) (dir : string) (info : FileInfo) :
  stat fs dir = Ok info -> isDirectory info = true ->
  collectDir fs dir =
  let w := walk fs dir walk_options in
  match first_conflict (entry_name fs dir <$> walk_entries w) ∅ with
  | Some n => Throw (Error (conflict_message dir n))
  | None =>
      match walk_end w with
      | Some err => Throw err
      | None => Ok (Js.sort (entry_rel fs dir <$> walk_entries w))
      end
  end.
Proof.
  intros Hstat Hdir. unfold collectDir. rewrite Hstat, Hdir. simpl.
  rewrite collectDir_loop_spec.
  destruct (first_conflict _ _); [done|]. destruct (walk_end _); done.
Qed.

Lemma entry_name_fmap (fs : FileSystem) (dir : string) (l : list WalkEntry) :
  entry_name fs dir <$> l = fileNameWithoutExt <$> (entry_rel fs dir <$> l).
Proof. by rewrite <- list_fmap_compose. Qed.

Lemma sort_sorted (l : list string) : Sorted String.le (Js.sort l).
Proof. apply (Sorted_merge_sort String.le). Qed.

Lemma sort_perm (l : list string) : Js.sort l ≡ₚ l.
Proof. apply (merge_sort_Permutation String.le). Qed.

Lemma sort_of_perm (l1 l2 : list string) : l1 ≡ₚ l2 -> Js.sort l1 = Js.sort l2.
Proof.
  intros Hp. apply (Sorted_unique String.le); [apply sort_sorted..|].
  by rewrite !sort_perm.
Qed.

(** ** [collectDir] *)

Example collectDir_order1 :
  collectDir fs_order1 "/p/routes" = Ok ["about.tsx"; "api/x.ts"; "index.tsx"].
Proof. vm_compute. reflexivity. Qed.

(** The order of the registry checked into the repository. *)
Example sort_generated_manifest_order :
  Js.sort ["index.tsx"; "api/get_only.ts"; "_middleware.ts"; "[name].tsx"; "_app.tsx";
           "books/[id].tsx"; "_404.tsx"; "movies/[foo]@[bar].ts"; "movies/[foo].json.ts";
           "layeredMdw/layer2/abc.ts"; "layeredMdw/layer2-no-mw/without_mw.ts"]
  = ["[name].tsx"; "_404.tsx"; "_app.tsx"; "_middleware.ts"; "api/get_only.ts";
     "books/[id].tsx"; "index.tsx"; "layeredMdw/layer2-no-mw/without_mw.ts";
     "layeredMdw/layer2/abc.ts"; "movies/[foo].json.ts"; "movies/[foo]@[bar].ts"] /\
  Js.sort ["kebab-case-counter-test.tsx"; "folder/Counter.tsx"; "Test.tsx"; "Counter.tsx"]
  = ["Counter.tsx"; "Test.tsx"; "folder/Counter.tsx"; "kebab-case-counter-test.tsx"].
Proof. vm_compute. split; reflexivity. Qed.

Example collectDir_conflict_example :
  collectDir fs_conflict "/p/routes" =
  Throw (Error "Route conflict detected. Multiple files have the same name: /p/routesa/foo").
Proof. vm_compute. reflexivity. Qed.

(** C8.  The logical name of a visited file is its relative path without
    its final extension segment: for a relative path [stem.ext], where [ext]
    holds no dot, the name is [stem], and [stem] is what the loop of the scan
    looks up in its set of names and then adds to it. *)
Theorem logical_name_drops_final_extension
    (fs : FileSystem) (dir : string) (entry : WalkEntry) (stem ext : string) :
  relative fs dir (path entry) = stem +:+ "." +:+ ext ->
  Js.includes "." ext = false ->
  Js.join "." (Js.slice_0_m1 (Js.split "." (relative fs dir (path entry)))) = stem /\
  forall (rest : WalkStream) (paths : list string) (fileNames : gset string),
    collectDir_loop fs dir (WalkYield entry rest) paths fileNames =
    if decide (stem ∈ fileNames) then Throw (Error (conflict_message dir stem))
    else collectDir_loop fs dir rest (paths ++ [stem +:+ "." +:+ ext])
           ({[ stem ]} ∪ fileNames).
Proof.
  intros Hrel Hext.
  assert (fileNameWithoutExt (relative fs dir (path entry)) = stem) as Hname.
  { rewrite Hrel. by apply fileNameWithoutExt_stem_ext. }
  split; [exact Hname|].
  intros rest paths fileNames. simpl. by rewrite Hname, Hrel.
Qed.

Lemma logical_name_drops_final_extension_witness :
  Js.join "." (Js.slice_0_m1 (Js.split "."
    (relative fs_conflict "/p/routes" "/p/routes/movies/[foo].json.ts")))
    = "movies/[foo].json" /\
  Js.join "." (Js.slice_0_m1 (Js.split "."
    (relative fs_conflict "/p/routes" "/p/routes/a/foo.ts"))) = "a/foo" /\
  Js.join "." (Js.slice_0_m1 (Js.split "."
    (relative fs_conflict "/p/routes" "/p/routes/a/foo.tsx"))) = "a/foo".
Proof.
  split_and!.
  - apply (logical_name_drops_final_extension fs_conflict "/p/routes"
             {| path := "/p/routes/movies/[foo].json.ts" |} "movies/[foo].json" "ts");
      reflexivity.
  - apply (logical_name_drops_final_extension fs_conflict "/p/routes"
             {| path := "/p/routes/a/foo.ts" |} "a/foo" "ts"); reflexivity.
  - apply (logical_name_drops_final_extension fs_conflict "/p/routes"
             {| path := "/p/routes/a/foo.tsx" |} "a/foo" "tsx"); reflexivity.
Defined.

(** C3.  When two visited files have the same logical name, the scan of an
    existing directory throws at the first entry [ek] whose name was met
    before: the entries before it are free of conflicts, and the error
    message ends with the directory followed by the logical name of [ek]. *)
Theorem collectDir_conflict_fails
    (fs : FileSystem) (dir : string) (info : FileInfo) (i j : nat) (e1 e2 : WalkEntry) :
  stat fs dir = Ok info -> isDirectory info = true ->
  i < j ->
  walk_entries (walk fs dir walk_options) !! i = Some e1 ->
  walk_entries (walk fs dir walk_options) !! j = Some e2 ->
  entry_name fs dir e1 = entry_name fs dir e2 ->
  exists (k : nat) (ek : WalkEntry),
    k <= j /\
    walk_entries (walk fs dir walk_options) !! k = Some ek /\
    NoDup (entry_name fs dir <$> take k (walk_entries (walk fs dir walk_options))) /\
    entry_name fs dir ek ∈
      (entry_name fs dir <$> take k (walk_entries (walk fs dir walk_options))) /\
    collectDir fs dir =
      Throw (Error ("Route conflict detected. Multiple files have the same name: "
                    +:+ dir +:+ entry_name fs dir ek)).
Proof.
  intros Hstat Hdir Hij Hi Hj Hname.
  set (entries := walk_entries (walk fs dir walk_options)) in *.
  assert (Hni : (entry_name fs dir <$> entries) !! i = Some (entry_name fs dir e1))
    by (by rewrite list_lookup_fmap, Hi).
  assert (Hnj : (entry_name fs dir <$> entries) !! j = Some (entry_name fs dir e1))
    by (by rewrite list_lookup_fmap, Hj, Hname).
  destruct (first_conflict_dup _ ∅ i j _ Hij Hni Hnj) as [m Hm].
  destruct (first_conflict_Some _ _ _ Hm) as (k & Hk & Hpre & Hin).
  rewrite <- fmap_take in Hpre, Hin.
  apply first_conflict_None in Hpre as [Hnd _].
  destruct Hin as [Hin|Hin]; [by apply not_elem_of_empty in Hin|].
  rewrite list_lookup_fmap in Hk.
  destruct (entries !! k) as [ek|] eqn:Hek; [|done]. simpl in Hk.
  injection Hk as <-.
  exists k, ek. split_and!; try done.
  - destruct (decide (k <= j)) as [|Hgt]; [done|]. exfalso.
    assert (Hti : (entry_name fs dir <$> take k entries) !! i = Some (entry_name fs dir e1)).
    { rewrite list_lookup_fmap, lookup_take_lt by lia. by rewrite Hi. }
    assert (Htj : (entry_name fs dir <$> take k entries) !! j = Some (entry_name fs dir e1)).
    { rewrite list_lookup_fmap, lookup_take_lt by lia. by rewrite Hj, Hname. }
    pose proof (NoDup_lookup _ _ _ _ Hnd Hti Htj). lia.
  - rewrite (collectDir_directory fs dir info Hstat Hdir). simpl.
    fold entries. by rewrite Hm.
Qed.

Lemma collectDir_conflict_fails_witness :
  exists (k : nat) (ek : WalkEntry),
    k <= 2 /\
    walk_entries (walk fs_conflict "/p/routes" walk_options) !! k = Some ek /\
    NoDup (entry_name fs_conflict "/p/routes" <$>
             take k (walk_entries (walk fs_conflict "/p/routes" walk_options))) /\
    entry_name fs_conflict "/p/routes" ek ∈
      (entry_name fs_conflict "/p/routes" <$>
         take k (walk_entries (walk fs_conflict "/p/routes" walk_options))) /\
    collectDir fs_conflict "/p/routes" =
      Throw (Error ("Route conflict detected. Multiple files have the same name: "
                    +:+ "/p/routes" +:+ entry_name fs_conflict "/p/routes" ek)).
Proof.
  apply (collectDir_conflict_fails fs_conflict "/p/routes" {| isDirectory := true |} 1 2
           {| path := "/p/routes/a/foo.ts" |} {| path := "/p/routes/a/foo.tsx" |});
    [reflexivity | reflexivity | lia | reflexivity | reflexivity | reflexivity].
Defined.

(** C4.  A root that does not exist, or that is not a directory, scans to the
    empty sequence; every other failure of the existence check is rethrown,
    and a failure the traversal runs into is thrown by the scan. *)
Theorem collectDir_root_failures (fs : FileSystem) (dir : string) :
  (forall msg, stat fs dir = Throw (NotFound msg) -> collectDir fs dir = Ok []) /\
  (forall info, stat fs dir = Ok info -> isDirectory info = false ->
                collectDir fs dir = Ok []) /\
  (forall err, stat fs dir = Throw err -> instanceof_NotFound err = false ->
               collectDir fs dir = Throw err) /\
  (forall info err, stat fs dir = Ok info -> isDirectory info = true ->
     NoDup (entry_name fs dir <$> walk_entries (walk fs dir walk_options)) ->
     walk_end (walk fs dir walk_options) = Some err ->
     collectDir fs dir = Throw err).
Proof.
  split_and!.
  - intros msg Hstat. unfold collectDir. by rewrite Hstat.
  - intros info Hstat Hdir. unfold collectDir. by rewrite Hstat, Hdir.
  - intros err Hstat Hnf. unfold collectDir. by rewrite Hstat, Hnf.
  - intros info err Hstat Hdir Hnd Hend.
    rewrite (collectDir_directory fs dir info Hstat Hdir). simpl.
    assert (first_conflict (entry_name fs dir <$> walk_entries (walk fs dir walk_options)) ∅
            = None) as ->.
    { apply first_conflict_None. split; [done|]. intros n _. apply not_elem_of_empty. }
    by rewrite Hend.
Qed.

Lemma collectDir_root_failures_witness :
  collectDir (fs_of (Throw (NotFound "No such file or directory (os error 2)")) WalkDone)
    "/p/islands" = Ok [] /\
  collectDir (fs_of a_plain_file WalkDone) "/p/islands" = Ok [] /\
  collectDir (fs_of (Throw permission_denied) WalkDone) "/p/islands"
    = Throw permission_denied /\
  collectDir fs_walk_fails "/p/routes" = Throw permission_denied.
Proof.
  split_and!.
  - apply (proj1 (collectDir_root_failures
                    (fs_of (Throw (NotFound "No such file or directory (os error 2)")) WalkDone)
                    "/p/islands") "No such file or directory (os error 2)").
    reflexivity.
  - apply (proj1 (proj2 (collectDir_root_failures (fs_of a_plain_file WalkDone) "/p/islands"))
             {| isDirectory := false |}); reflexivity.
  - apply (proj1 (proj2 (proj2 (collectDir_root_failures
                                  (fs_of (Throw permission_denied) WalkDone) "/p/islands")))
             permission_denied); reflexivity.
  - apply (proj2 (proj2 (proj2 (collectDir_root_failures fs_walk_fails "/p/routes")))
             {| isDirectory := true |} permission_denied);
      [reflexivity | reflexivity | | reflexivity].
    vm_compute. apply NoDup_singleton.
Defined.

Lemma visited_directory (fs : FileSystem) (dir : string) (info : FileInfo) :
  stat fs dir = Ok info -> isDirectory info = true ->
  visited fs dir = entry_rel fs dir <$> walk_entries (walk fs dir walk_options).
Proof. intros Hstat Hdir. unfold visited. by rewrite Hstat, Hdir. Qed.

(** What a scan returns when it returns: the visited relative paths, sorted,
    none of them twice. *)
Lemma collectDir_Ok (fs : FileSystem) (dir : string) (paths : list string) :
  collectDir fs dir = Ok paths ->
  paths = Js.sort (visited fs dir) /\ NoDup (fileNameWithoutExt <$> visited fs dir).
Proof.
  unfold collectDir, visited.
  destruct (stat fs dir) as [info|err] eqn:Hstat.
  - destruct (isDirectory info) eqn:Hdir; simpl.
    + rewrite collectDir_loop_spec.
      destruct (first_conflict _ _) eqn:Hc; [done|].
      destruct (walk_end _); [done|]. intros [= <-].
      apply first_conflict_None in Hc as [Hnd _].
      rewrite entry_name_fmap in Hnd. done.
    + intros [= <-]. split; [done|constructor].
  - destruct (instanceof_NotFound err); [|done].
    intros [= <-]. split; [done|constructor].
Qed.

(** C5.  Two scans of the same root that visit the same files, in whatever
    order, return the same sequence, and that sequence is the visited
    relative paths in ascending order. *)
Theorem collectDir_order_independent
    (fs1 fs2 : FileSystem) (dir : string) (paths : list string) :
  stat fs1 dir = stat fs2 dir ->
  visited fs1 dir ≡ₚ visited fs2 dir ->
  walk_end (walk fs2 dir walk_options) = None ->
  collectDir fs1 dir = Ok paths ->
  collectDir fs2 dir = Ok paths /\
  Sorted String.le paths /\
  paths ≡ₚ visited fs1 dir.
Proof.
  intros Hstat Hperm Hend H1.
  destruct (collectDir_Ok _ _ _ H1) as [-> Hnd]. split_and!.
  - rewrite (sort_of_perm _ _ Hperm).
    unfold collectDir in H1 |- *. unfold visited in Hnd |- *. rewrite <- Hstat in *.
    destruct (stat fs1 dir) as [info|err] eqn:Hs1; [|by destruct (instanceof_NotFound err)].
    destruct (isDirectory info) eqn:Hdir; simpl; [|done].
    rewrite collectDir_loop_spec, Hend.
    assert (first_conflict (entry_name fs2 dir <$> walk_entries (walk fs2 dir walk_options)) ∅
            = None) as ->; [|done].
    apply first_conflict_None. split; [|intros n _; apply not_elem_of_empty].
    rewrite entry_name_fmap.
    assert (Hp : entry_rel fs1 dir <$> walk_entries (walk fs1 dir walk_options)
                 ≡ₚ entry_rel fs2 dir <$> walk_entries (walk fs2 dir walk_options)).
    { unfold visited in Hperm. rewrite <- Hstat, Hs1, Hdir in Hperm. done. }
    by rewrite <- Hp.
  - apply sort_sorted.
  - apply sort_perm.
Qed.

Lemma collectDir_order_independent_witness :
  collectDir fs_order2 "/p/routes" = Ok ["about.tsx"; "api/x.ts"; "index.tsx"] /\
  Sorted String.le ["about.tsx"; "api/x.ts"; "index.tsx"] /\
  ["about.tsx"; "api/x.ts"; "index.tsx"] ≡ₚ visited fs_order1 "/p/routes".
Proof.
  apply (collectDir_order_independent fs_order1 fs_order2 "/p/routes").
  - reflexivity.
  - change (visited fs_order1 "/p/routes") with ["index.tsx"; "about.tsx"; "api/x.ts"].
    change (visited fs_order2 "/p/routes") with ["api/x.ts"; "index.tsx"; "about.tsx"].
    symmetry. apply (Permutation_cons_append ["index.tsx"; "about.tsx"] "api/x.ts").
  - reflexivity.
  - vm_compute. reflexivity.
Defined.

(** ** The path functions *)

Example normalize_examples :
  Posix.normalize "" = "." /\
  Posix.normalize "routes/index.tsx" = "routes/index.tsx" /\
  Posix.normalize "./routes//a/./b/../c.ts" = "routes/a/c.ts" /\
  Posix.normalize "../../a/" = "../../a/" /\
  Posix.normalize "a/../.." = ".." /\
  Posix.normalize "/a/../../b" = "/b" /\
  Posix.normalize "/" = "/" /\
  Posix.normalize "./" = "./" /\
  Posix.normalize "a/.." = "." /\
  Posix.normalize ".../x" = ".../x" /\
  Posix.normalize "a\..\b" = "a\..\b" /\
  Posix.join ["routes"; "api/x.ts"] = "routes/api/x.ts" /\
  Posix.join ["/p"; "./fresh.gen.ts"] = "/p/fresh.gen.ts" /\
  Posix.join [""; ""] = ".".
Proof. vm_compute. repeat split. Qed.

Example toImportSpecifier_examples :
  toImportSpecifier "routes/index.tsx" = "./routes/index.tsx" /\
  toImportSpecifier "routes\api\x.ts" = "./routes/api/x.ts" /\
  toImportSpecifier "../shared/x.ts" = "../shared/x.ts" /\
  toImportSpecifier ".foo" = ".foo" /\
  toImportSpecifier "/abs" = ".//abs" /\
  toImportSpecifier ".//abs" = "./abs".
Proof. vm_compute. repeat split. Qed.

Lemma app_String (x : ascii) (a b : string) : String x a +:+ b = String x (a +:+ b).
Proof. reflexivity. Qed.

Lemma app_empty_l (b : string) : "" +:+ b = b.
Proof. reflexivity. Qed.

Lemma app_empty_r (a : string) : a +:+ "" = a.
Proof. induction a as [|x a IH]; [done|]. by rewrite app_String, IH. Qed.

Lemma app_assoc_str (a b c : string) : (a +:+ b) +:+ c = a +:+ (b +:+ c).
Proof. induction a as [|x a IH]; [done|]. by rewrite !app_String, IH. Qed.

Lemma length_app_str (a b : string) :
  String.length (a +:+ b) = String.length a + String.length b.
Proof. induction a as [|x a IH]; [done|]. rewrite app_String. simpl. by rewrite IH. Qed.

Lemma includes_app (c : ascii) (a b : string) :
  Js.includes c (a +:+ b) = Js.includes c a || Js.includes c b.
Proof.
  induction a as [|x a IH]; [done|]. rewrite app_String. simpl.
  by case_decide.
Qed.

Lemma replaceAll_id (c d : ascii) (s : string) :
  Js.includes c s = false -> Js.replaceAll c d s = s.
Proof.
  induction s as [|x s IH]; simpl; [done|].
  case_decide; [done|]. intros Hs. by rewrite IH.
Qed.

Lemma includes_replaceAll (c d : ascii) (s : string) :
  c <> d -> Js.includes c (Js.replaceAll c d s) = false.
Proof.
  intros Hcd. induction s as [|x s IH]; simpl; [done|].
  destruct (decide (x = c)) as [->|Hx].
  - by rewrite decide_False by done.
  - by rewrite decide_False by done.
Qed.

Lemma split_Forall (sep : ascii) (s : string) :
  Forall (fun seg => Js.includes sep seg = false) (Js.split sep s).
Proof.
  induction s as [|x s IH]; simpl.
  - by constructor.
  - case_decide as Hx.
    + by constructor.
    + pose proof (split_nonempty sep s) as Hne.
      destruct (Js.split sep s) as [|seg segs]; [done|].
      apply Forall_cons in IH as [Hseg Hsegs]. constructor; [|done].
      simpl. by rewrite decide_False by done.
Qed.

Lemma split_includes (sep c : ascii) (s : string) :
  Js.includes c s = false ->
  Forall (fun seg => Js.includes c seg = false) (Js.split sep s).
Proof.
  induction s as [|x s IH]; simpl.
  - by constructor.
  - destruct (decide (x = c)) as [|Hxc]; [done|]. intros Hs. specialize (IH Hs).
    case_decide as Hx.
    + by constructor.
    + pose proof (split_nonempty sep s) as Hne.
      destruct (Js.split sep s) as [|seg segs]; [done|].
      apply Forall_cons in IH as [Hseg Hsegs]. constructor; [|done].
      simpl. by rewrite decide_False by done.
Qed.

Lemma split_join (sep : ascii) (l : list string) :
  l <> [] -> Forall (fun seg => Js.includes sep seg = false) l ->
  Js.split sep (Js.join (String sep "") l) = l.
Proof.
  induction l as [|x l IH]; [done|]. intros _ Hall.
  apply Forall_cons in Hall as [Hx Hl].
  destruct l as [|y l].
  - simpl. by apply split_no_sep.
  - rewrite join_cons_cons. rewrite app_String, app_empty_l.
    rewrite split_app_sep, (split_no_sep _ _ Hx), IH by done. done.
Qed.

Lemma includes_join (c : ascii) (d : string) (l : list string) :
  Js.includes c d = false ->
  Forall (fun seg => Js.includes c seg = false) l ->
  Js.includes c (Js.join d l) = false.
Proof.
  intros Hd. induction l as [|x l IH]; [done|]. intros Hall.
  apply Forall_cons in Hall as [Hx Hl].
  destruct l as [|y l]; [done|].
  rewrite join_cons_cons, !includes_app, Hx, Hd, IH by done. done.
Qed.

(** *** Normal forms of [normalize] *)

Lemma ordinary_step (kept : list string) (seg : string) :
  ordinary seg -> Posix.step true kept seg = seg :: kept.
Proof.
  intros (Hne & Hdot & Hdots & _). unfold Posix.step.
  rewrite decide_False by (intros [?|?]; done). by rewrite decide_False.
Qed.

Lemma resolved_step (kept : list string) (seg : string) :
  resolved kept -> Js.includes "/" seg = false ->
  resolved (Posix.step true kept seg).
Proof.
  intros Hkept Hseg. unfold Posix.step.
  case_decide as Hskip; [done|]. case_decide as Hup.
  - destruct kept as [|top below]; [apply (resolved_dots 1)|].
    case_decide as Htop.
    + subst top. inversion Hkept as [k Hk|seg' kept' Hord Hkept' Heq].
      * apply (resolved_dots (S k)).
      * by destruct Hord as (_ & _ & ? & _).
    + inversion Hkept as [k Hk|seg' kept' Hord Hkept' Heq]; [|done].
      destruct k as [|k]; [done|]. simpl in Hk. by injection Hk as <- _.
  - apply resolved_push; [|done]. split_and!; try done; naive_solver.
Qed.

Lemma resolved_resolve (segs kept : list string) :
  Forall (fun seg => Js.includes "/" seg = false) segs ->
  resolved kept -> resolved (Posix.resolve true segs kept).
Proof.
  revert kept. induction segs as [|seg segs IH]; intros kept Hall Hkept; simpl; [done|].
  apply Forall_cons in Hall as [Hseg Hsegs].
  apply IH; [done|]. by apply resolved_step.
Qed.

Lemma resolve_app (b : bool) (l1 l2 kept : list string) :
  Posix.resolve b (l1 ++ l2) kept = Posix.resolve b l2 (Posix.resolve b l1 kept).
Proof. revert kept. induction l1 as [|x l1 IH]; intros kept; simpl; [done|]. apply IH. Qed.

Lemma resolve_dots (k j : nat) :
  Posix.resolve true (replicate k "..") (replicate j "..") = replicate (k + j) "..".
Proof.
  revert j. induction k as [|k IH]; intros j; simpl; [done|].
  replace (Posix.step true (replicate j "..") "..") with (replicate (S j) "..").
  - rewrite IH. by replace (k + S j) with (S (k + j)) by lia.
  - by destruct j.
Qed.

Lemma resolve_reverse (kept : list string) :
  resolved kept -> Posix.resolve true (reverse kept) [] = kept.
Proof.
  induction 1 as [k|seg kept Hord Hkept IH].
  - rewrite reverse_replicate. pose proof (resolve_dots k 0) as Hd. simpl in Hd.
    by rewrite Hd, Nat.add_0_r.
  - rewrite reverse_cons, resolve_app, IH. simpl. by apply ordinary_step.
Qed.

Lemma resolved_Forall (kept : list string) :
  resolved kept ->
  Forall (fun seg => seg <> "" /\ Js.includes "/" seg = false) kept.
Proof.
  induction 1 as [k|seg kept Hord Hkept IH].
  - apply Forall_replicate. done.
  - constructor; [|done]. by destruct Hord as (? & _ & _ & ?).
Qed.

Lemma startsWith_char (c : ascii) (s : string) :
  Js.startsWith (String c "") s =
  match s with String x _ => bool_decide (x = c) | "" => false end.
Proof.
  destruct s as [|x s]; [done|]. unfold Js.startsWith. simpl.
  destruct (ascii_dec c x) as [->|Hne].
  - rewrite bool_decide_eq_true_2 by done. by destruct s.
  - by rewrite bool_decide_eq_false_2 by congruence.
Qed.

Lemma startsWith_char_app (c : ascii) (a b : string) :
  a <> "" -> Js.startsWith (String c "") (a +:+ b) = Js.startsWith (String c "") a.
Proof. intros Ha. rewrite !startsWith_char. by destruct a. Qed.

Lemma endsWithSlash_app (a b : string) :
  b <> "" -> Posix.endsWithSlash (a +:+ b) = Posix.endsWithSlash b.
Proof.
  intros Hb. induction a as [|x a IH]; [done|].
  rewrite app_String. simpl. rewrite IH.
  destruct (a +:+ b) eqn:E; [|done].
  destruct a; [|done]. by rewrite app_empty_l in E.
Qed.

Lemma endsWithSlash_includes (s : string) :
  Js.includes "/" s = false -> Posix.endsWithSlash s = false.
Proof.
  induction s as [|x s IH]; [done|]. simpl.
  case_decide as Hx; [done|]. intros Hs.
  destruct s; [by apply bool_decide_eq_false_2|]. by apply IH.
Qed.

Section joined.
Variable l : list string.
Hypothesis l_nonempty : l <> [].
Hypothesis l_segments : Forall (fun seg => seg <> "" /\ Js.includes "/" seg = false) l.

Lemma joined_nonempty : Js.join "/" l <> "".
Proof using l_nonempty l_segments.
  destruct l as [|x l']; [done|]. apply Forall_cons in l_segments as [[Hx _] _].
  destruct l' as [|y l'']; [done|]. rewrite join_cons_cons.
  destruct x; [done|]. by rewrite app_String.
Qed.

Lemma joined_relative : Js.startsWith "/" (Js.join "/" l) = false.
Proof using l_nonempty l_segments.
  destruct l as [|x l']; [done|]. apply Forall_cons in l_segments as [[Hx Hsl] _].
  assert (Js.startsWith "/" x = false) as Hstart.
  { rewrite startsWith_char. destruct x as [|c x]; [done|].
    simpl in Hsl. case_decide; [done|]. by apply bool_decide_eq_false_2. }
  destruct l' as [|y l'']; [done|].
  by rewrite join_cons_cons, startsWith_char_app.
Qed.

Lemma joined_no_trailing_slash : Posix.endsWithSlash (Js.join "/" l) = false.
Proof using l_nonempty l_segments.
  clear l_nonempty. induction l as [|x l' IH]; [done|].
  apply Forall_cons in l_segments as [[Hx Hsl] Hl'].
  destruct l' as [|y l'']; [by apply endsWithSlash_includes|].
  rewrite join_cons_cons, !endsWithSlash_app; [by apply IH| |].
  - apply Forall_cons in Hl' as [[Hy _] _].
    destruct l'' as [|z l'']; [done|]. rewrite join_cons_cons.
    destruct y; [done|]. by rewrite app_String.
  - done.
Qed.

Lemma joined_split : Js.split "/" (Js.join "/" l) = l.
Proof using l_nonempty l_segments.
  apply split_join; [done|]. eapply Forall_impl; [done|]. by intros seg [_ ?].
Qed.

End joined.

(** *** The loop of [normalizeString] and the segments of the path *)

Lemma len_app (a b : string) : Posix.len (a +:+ b) = (Posix.len a + Posix.len b)%Z.
Proof. unfold Posix.len. rewrite length_app_str. lia. Qed.

Lemma len_String (x : ascii) (a : string) : Posix.len (String x a) = (Posix.len a + 1)%Z.
Proof. unfold Posix.len. simpl. lia. Qed.

Lemma len_nonneg (a : string) : (0 <= Posix.len a)%Z.
Proof. unfold Posix.len. lia. Qed.

Lemma len_0 (a : string) : Posix.len a = 0%Z <-> a = "".
Proof. unfold Posix.len. destruct a; simpl; split; (done || lia). Qed.

Lemma get_app_here (a b : string) (c : ascii) :
  String.get (String.length a) (a +:+ String c b) = Some c.
Proof. induction a as [|x a IH]; [done|]. rewrite app_String. simpl. apply IH. Qed.

Lemma charCodeAt_app (a b : string) (c : ascii) :
  Js.charCodeAt (a +:+ String c b) (Posix.len a) = Some c.
Proof.
  unfold Js.charCodeAt, Posix.len.
  destruct (Z.ltb_spec (Z.of_nat (String.length a)) 0) as [Hneg|_]; [lia|].
  rewrite Nat2Z.id. apply get_app_here.
Qed.

Lemma substring_app_here (a b c : string) :
  String.substring (String.length a) (String.length b) (a +:+ b +:+ c) = b.
Proof.
  induction a as [|x a IH].
  - rewrite app_empty_l. simpl. induction b as [|y b IHb].
    + by destruct c.
    + rewrite app_String. simpl. by rewrite IHb.
  - rewrite app_String. simpl. apply IH.
Qed.

Lemma slice_app (a b c : string) :
  Js.slice (a +:+ b +:+ c) (Posix.len a) (Posix.len a + Posix.len b) = b.
Proof.
  unfold Js.slice, Posix.len.
  replace (Z.of_nat (String.length a) + Z.of_nat (String.length b)
           - Z.of_nat (String.length a))%Z with (Z.of_nat (String.length b)) by lia.
  rewrite !Nat2Z.id. apply substring_app_here.
Qed.

Lemma slice_prefix (a c : string) : Js.slice (a +:+ c) 0 (Posix.len a) = a.
Proof. apply (slice_app "" a c). Qed.

Lemma lastIndexOf_lower (c : ascii) (s : string) : (-1 <= Js.lastIndexOf c s)%Z.
Proof.
  induction s as [|x s IH]; simpl; [lia|].
  destruct (Z.leb_spec 0 (Js.lastIndexOf c s)); [lia|]. case_decide; lia.
Qed.

Lemma lastIndexOf_none (c : ascii) (s : string) :
  Js.includes c s = false -> Js.lastIndexOf c s = (-1)%Z.
Proof.
  induction s as [|x s IH]; simpl; [done|].
  case_decide; [done|]. intros Hs. by rewrite IH.
Qed.

Lemma lastIndexOf_app (c : ascii) (a b : string) :
  Js.includes c b = false -> Js.lastIndexOf c (a +:+ String c b) = Posix.len a.
Proof.
  intros Hb. induction a as [|x a IH].
  - rewrite app_empty_l. simpl. rewrite lastIndexOf_none by done. simpl.
    by rewrite decide_True.
  - rewrite app_String, len_String. simpl. rewrite IH.
    pose proof (len_nonneg a). destruct (Z.leb_spec 0 (Posix.len a)); [done|lia].
Qed.

Lemma join_snoc (d : string) (l : list string) (x : string) :
  l <> [] -> Js.join d (l ++ [x]) = Js.join d l +:+ d +:+ x.
Proof.
  induction l as [|y l IH]; [done|]. intros _.
  destruct l as [|z l]; [done|].
  change ((y :: z :: l) ++ [x]) with (y :: (z :: l) ++ [x]).
  change ((z :: l) ++ [x]) with (z :: (l ++ [x])) at 1.
  rewrite join_cons_cons. change (z :: (l ++ [x])) with ((z :: l) ++ [x]).
  rewrite IH by done. rewrite join_cons_cons. by rewrite !app_assoc_str.
Qed.

Lemma all_dots_app (a b : string) : all_dots (a +:+ b) = all_dots a && all_dots b.
Proof.
  induction a as [|x a IH]; [done|]. rewrite app_String. simpl. rewrite IH.
  by destruct (bool_decide (x = "."%char)).
Qed.

Lemma dots_of_neg (seg : string) : dots_of seg = (-1)%Z <-> all_dots seg = false.
Proof.
  unfold dots_of. pose proof (len_nonneg seg).
  destruct (all_dots seg); split; (done || lia).
Qed.

Lemma dots_of_snoc (seg : string) (c : ascii) :
  dots_of (seg +:+ String c "") =
  if bool_decide (c = "."%char) && negb (dots_of seg =? -1)%Z
  then (dots_of seg + 1)%Z else (-1)%Z.
Proof.
  unfold dots_of. rewrite all_dots_app, len_app. simpl.
  pose proof (len_nonneg seg).
  destruct (all_dots seg); simpl.
  - destruct (bool_decide (c = "."%char)); simpl; [|done].
    destruct (Z.eqb_spec (Posix.len seg) (-1)); [lia|]. simpl.
    unfold Posix.len. simpl. lia.
  - rewrite andb_false_r. done.
Qed.

Lemma dots_of_1 (seg : string) : dots_of seg = 1%Z <-> seg = ".".
Proof.
  split; [|by intros ->]. unfold dots_of.
  destruct seg as [|c [|d seg]]; simpl; try done.
  - case_bool_decide as Hc; simpl; [by subst|done].
  - destruct (bool_decide (c = "."%char) && (bool_decide (d = "."%char) && all_dots seg));
      [|done].
    unfold Posix.len. simpl. lia.
Qed.

Lemma dots_of_2 (seg : string) : dots_of seg = 2%Z <-> seg = "..".
Proof.
  split; [|by intros ->]. unfold dots_of.
  destruct seg as [|c [|d [|e seg]]]; simpl; try done.
  - by destruct (bool_decide (c = "."%char) && true).
  - case_bool_decide as Hc; simpl; [|done].
    case_bool_decide as Hd; simpl; [by subst|done].
  - destruct (bool_decide (c = "."%char) &&
              (bool_decide (d = "."%char) && (bool_decide (e = "."%char) && all_dots seg)));
      [|done].
    unfold Posix.len. simpl. lia.
Qed.

Lemma isPosixPathSeparator_unit (c : ascii) :
  Posix.isPosixPathSeparator (Some c) = bool_decide (c = "/"%char).
Proof.
  unfold Posix.isPosixPathSeparator.
  destruct (decide (c = "/"%char)) as [->|Hc].
  - by rewrite !bool_decide_eq_true_2.
  - rewrite !bool_decide_eq_false_2; [done|done|congruence].
Qed.

Lemma body_unit (path : string) (b : bool) (i : Z) (c : ascii)
    (pre seg : string) (kept : list string) (st : Posix.LoopState) :
  c <> "/"%char -> loop_inv pre seg kept st ->
  loop_inv pre (seg +:+ String c "") kept (Posix.body path b i c st).
Proof.
  intros Hc (Hres & Hlsl & Hls & Hdots & Hcode & Hkept & Hseg).
  unfold Posix.body. rewrite isPosixPathSeparator_unit, bool_decide_eq_false_2 by done.
  assert (Js.includes "/" (seg +:+ String c "") = false) as Hseg'.
  { rewrite includes_app, Hseg. simpl. by rewrite decide_False. }
  assert (Posix.isPosixPathSeparator (Some c) = false) as Hsep.
  { by rewrite isPosixPathSeparator_unit, bool_decide_eq_false_2. }
  pose proof (dots_of_snoc seg c) as Hsnoc. rewrite <- Hdots in Hsnoc.
  destruct (bool_decide (c = "."%char) && negb (Posix.dots st =? -1)%Z);
    unfold loop_inv; simpl; split_and!; done.
Qed.

Lemma at_slash_inv (pre seg : string) (kept : list string) (c : ascii) (r : string) (l : Z) :
  r = Js.join "/" (reverse kept) -> l = top_len kept ->
  Forall (fun s => s <> "" /\ Js.includes "/" s = false) kept ->
  loop_inv (pre +:+ seg +:+ "/") "" kept
    (Posix.at_slash (Posix.len pre + Posix.len seg) c r l).
Proof.
  intros -> -> Hkept. unfold loop_inv, Posix.at_slash. simpl.
  split_and!; try done. rewrite !len_app.
  change (Posix.len "/") with 1%Z. lia.
Qed.

Lemma kept_res_cons (top : string) (below : list string) :
  Js.join "/" (reverse (top :: below)) =
  match below with
  | [] => top
  | _ :: _ => Js.join "/" (reverse below) +:+ "/" +:+ top
  end.
Proof.
  rewrite reverse_cons. destruct below as [|t2 b2]; [done|].
  apply join_snoc. intros Hr. apply (f_equal reverse) in Hr.
  by rewrite reverse_involutive in Hr.
Qed.

Lemma kept_res_empty (kept : list string) :
  Forall (fun s => s <> "" /\ Js.includes "/" s = false) kept ->
  Js.join "/" (reverse kept) = "" <-> kept = [].
Proof.
  intros Hkept. split; [|by intros ->].
  destruct kept as [|top below]; [done|]. intros Hres. exfalso.
  apply Forall_cons in Hkept as [[Htop _] _].
  rewrite kept_res_cons in Hres. destruct below.
  - done.
  - destruct (Js.join "/" (reverse (s :: below))); [|by rewrite app_String in Hres].
    by rewrite app_empty_l in Hres.
Qed.

Lemma kept_top_len (kept : list string) :
  Forall (fun s => s <> "" /\ Js.includes "/" s = false) kept ->
  (Posix.len (Js.join "/" (reverse kept)) - 1
   - Js.lastIndexOf "/" (Js.join "/" (reverse kept)))%Z = top_len kept.
Proof.
  intros Hkept. destruct kept as [|top below].
  - done.
  - apply Forall_cons in Hkept as [[Htop Hsl] _].
    rewrite kept_res_cons. destruct below as [|t2 b2].
    + rewrite lastIndexOf_none by done. simpl. lia.
    + change ("/" +:+ top) with (String "/" top).
      rewrite lastIndexOf_app by done. rewrite len_app, len_String. simpl. lia.
Qed.

(** The test that guards the removal of the last kept segment holds
    exactly when that segment is not "..". *)
Lemma dotdot_guard (x top : string) :
  top <> "" ->
  (Posix.len (x +:+ top) <? 2)%Z
  || negb (Posix.len top =? 2)%Z
  || negb (bool_decide (Js.charCodeAt (x +:+ top) (Posix.len (x +:+ top) - 1) = Some "."%char))
  || negb (bool_decide (Js.charCodeAt (x +:+ top) (Posix.len (x +:+ top) - 2) = Some "."%char))
  = negb (bool_decide (top = "..")).
Proof.
  intros Htop. pose proof (len_nonneg x) as Hx.
  destruct top as [|c1 [|c2 [|c3 top]]]; [done| | |].
  - rewrite (bool_decide_eq_false_2 (String c1 "" = "..")) by done.
    change (Posix.len (String c1 "")) with 1%Z. simpl.
    by rewrite orb_true_r.
  - rewrite len_app. change (Posix.len (String c1 (String c2 ""))) with 2%Z.
    destruct (Z.ltb_spec (Posix.len x + 2) 2) as [|_]; [lia|]. simpl.
    replace (Posix.len x + 2 - 2)%Z with (Posix.len x) by lia.
    rewrite charCodeAt_app.
    replace (x +:+ String c1 (String c2 "")) with ((x +:+ String c1 "") +:+ String c2 "")
      by (by rewrite app_assoc_str).
    replace (Posix.len x + 2 - 1)%Z with (Posix.len (x +:+ String c1 ""))
      by (rewrite len_app; change (Posix.len (String c1 "")) with 1%Z; lia).
    rewrite charCodeAt_app.
    destruct (decide (c1 = "."%char)) as [->|H1], (decide (c2 = "."%char)) as [->|H2].
    + done.
    + rewrite (bool_decide_eq_false_2 (Some c2 = _)) by congruence.
      by rewrite (bool_decide_eq_false_2 (_ = "..")) by congruence.
    + rewrite (bool_decide_eq_false_2 (Some c1 = _)) by congruence.
      rewrite (bool_decide_eq_false_2 (_ = "..")) by congruence.
      by rewrite orb_true_r.
    + rewrite (bool_decide_eq_false_2 (Some c1 = _)) by congruence.
      rewrite (bool_decide_eq_false_2 (_ = "..")) by congruence.
      by rewrite orb_true_r.
  - rewrite (bool_decide_eq_false_2 (String c1 (String c2 (String c3 top)) = "..")) by done.
    assert ((Posix.len (String c1 (String c2 (String c3 top))) =? 2)%Z = false) as ->.
    { apply Z.eqb_neq. rewrite !len_String. pose proof (len_nonneg top). lia. }
    simpl. by rewrite orb_true_r.
Qed.

(** The body of the loop at a separator: the segment just read is dealt
    with as [Posix.step] says. *)
Lemma body_slash_state (path : string) (b : bool) (pre seg rest : string)
    (kept : list string) (st : Posix.LoopState) :
  path = pre +:+ seg +:+ rest -> loop_inv pre seg kept st ->
  exists r l,
    Posix.body path b (Posix.len pre + Posix.len seg) "/" st =
      Posix.at_slash (Posix.len pre + Posix.len seg) "/" r l /\
    r = Js.join "/" (reverse (Posix.step b kept seg)) /\
    l = top_len (Posix.step b kept seg) /\
    Forall (fun s => s <> "" /\ Js.includes "/" s = false) (Posix.step b kept seg).
Proof.
  intros Hpath (Hres & Hlsl & Hls & Hdots & Hcode & Hkept & Hseg).
  pose proof (len_nonneg pre) as Hpre. pose proof (len_nonneg seg) as Hsegn.
  unfold Posix.body. change (Posix.isPosixPathSeparator (Some "/"%char)) with true.
  cbv iota. rewrite Hls, Hdots.
  destruct (decide (seg = "")) as [->|Hne].
  { change (Posix.len "") with 0%Z.
    replace (Posix.len pre - 1 =? Posix.len pre + 0 - 1)%Z with true
      by (symmetry; apply Z.eqb_eq; lia).
    simpl. eexists _, _. split; [reflexivity|].
    unfold Posix.step. rewrite decide_True by auto. done. }
  assert ((Posix.len pre - 1 =? Posix.len pre + Posix.len seg - 1)%Z = false) as ->.
  { apply Z.eqb_neq. intros Heq. apply Hne, len_0. lia. }
  simpl orb.
  destruct (decide (seg = ".")) as [->|Hdot].
  { simpl. eexists _, _. split; [reflexivity|].
    unfold Posix.step. rewrite decide_True by auto. done. }
  assert ((dots_of seg =? 1)%Z = false) as ->.
  { apply Z.eqb_neq. by rewrite dots_of_1. }
  unfold Posix.step. rewrite decide_False by (intros [?|?]; done).
  destruct (decide (seg = "..")) as [->|Hdd].
  - change (dots_of ".." =? 2)%Z with true. cbv iota.
    destruct kept as [|top below].
    + change (Js.join "/" (reverse [])) with "" in Hres. rewrite Hres, Hlsl. simpl.
      destruct b; eexists _, _; (split; [reflexivity|]).
      * split_and!; [done..|]. by repeat constructor.
      * split_and!; [done..|]. constructor.
    + pose proof Hkept as Hkept'. apply Forall_cons in Hkept' as [[Htop Htopsl] Hbelow].
      assert (exists x, Posix.res st = x +:+ top /\
                match below with
                | [] => x = ""
                | _ :: _ => x = Js.join "/" (reverse below) +:+ "/"
                end) as (x & Hx & Hxb).
      { rewrite Hres, kept_res_cons. destruct below.
        - by exists "".
        - eexists. split; [|done]. by rewrite app_assoc_str. }
      rewrite Hlsl. simpl top_len.
      pose proof (dotdot_guard x top Htop) as Hguard. rewrite <- Hx in Hguard.
      rewrite Hguard. clear Hguard.
      case_decide as Htd.
      * subst top. rewrite bool_decide_eq_true_2 by done. simpl negb. cbv iota.
        assert ((0 <? Posix.len (Posix.res st))%Z = true) as Hpos.
        { apply Z.ltb_lt. rewrite Hx, len_app. pose proof (len_nonneg x).
          change (Posix.len "..") with 2%Z. lia. }
        destruct b.
        -- rewrite Hpos. eexists _, _. split; [reflexivity|]. split_and!.
           ++ rewrite (kept_res_cons ".." (".." :: below)), <- Hres. done.
           ++ done.
           ++ by constructor.
        -- eexists _, _. split; [reflexivity|]. by rewrite Hres.
      * rewrite bool_decide_eq_false_2 by done. simpl negb. cbv iota.
        destruct below as [|t2 b2].
        -- subst x. rewrite app_empty_l in Hx. rewrite Hx.
           rewrite (lastIndexOf_none "/" top) by done.
           change (-1 =? -1)%Z with true. cbv iota.
           destruct (Z.ltb_spec 2 (Posix.len top)) as [Hlong|Hlen]; [by eexists _, _|].
           destruct ((Posix.len top =? 2)%Z || (Posix.len top =? 1)%Z) eqn:Hshort;
             [by eexists _, _|].
           exfalso. apply orb_false_iff in Hshort as [H2 H1].
           apply Z.eqb_neq in H2, H1.
           assert (Posix.len top <> 0%Z) by (by rewrite len_0).
           pose proof (len_nonneg top). lia.
        -- assert ((2 <? Posix.len (Posix.res st))%Z = true) as ->.
           { apply Z.ltb_lt. rewrite Hx, Hxb, !len_app.
             pose proof (len_nonneg (Js.join "/" (reverse (t2 :: b2)))) as Hj.
             assert (Posix.len (Js.join "/" (reverse (t2 :: b2))) <> 0%Z) as Hj0.
             { by rewrite len_0, (kept_res_empty _ Hbelow). }
             assert (Posix.len top <> 0%Z) by (by rewrite len_0).
             pose proof (len_nonneg top). change (Posix.len "/") with 1%Z. lia. }
           assert (Posix.res st = Js.join "/" (reverse (t2 :: b2)) +:+ String "/" top) as Hr.
           { rewrite Hx, Hxb. by rewrite app_assoc_str. }
           rewrite Hr, lastIndexOf_app by done.
           assert ((Posix.len (Js.join "/" (reverse (t2 :: b2))) =? -1)%Z = false) as ->.
           { apply Z.eqb_neq. pose proof (len_nonneg (Js.join "/" (reverse (t2 :: b2)))). lia. }
           rewrite slice_prefix.
           eexists _, _. split; [reflexivity|]. split_and!; [done| |done].
           by apply kept_top_len.
  - assert ((dots_of seg =? 2)%Z = false) as ->.
    { apply Z.eqb_neq. by rewrite dots_of_2. }
    replace (Posix.len pre - 1 + 1)%Z with (Posix.len pre) by lia.
    rewrite Hpath, slice_app.
    eexists _, _. split; [reflexivity|]. split_and!.
    + rewrite kept_res_cons. destruct kept as [|top below].
      * by rewrite Hres.
      * assert ((0 <? Posix.len (Posix.res st))%Z = true) as ->; [|by rewrite Hres].
        apply Z.ltb_lt. pose proof (len_nonneg (Posix.res st)).
        assert (Posix.len (Posix.res st) <> 0%Z); [|lia].
        by rewrite len_0, Hres, kept_res_empty.
    + simpl. lia.
    + by constructor.
Qed.

Lemma loop_S (path : string) (b : bool) (n : nat) (i : Z) (st : Posix.LoopState) :
  Posix.loop path b (S n) i st =
  if (i <? Posix.len path)%Z then
    match Js.charCodeAt path i with
    | Some c => Posix.loop path b n (i + 1) (Posix.body path b i c st)
    | None => Posix.res st
    end
  else if Posix.isPosixPathSeparator (Posix.code st) then Posix.res st
  else Posix.loop path b n (i + 1) (Posix.body path b i "/" st).
Proof. reflexivity. Qed.

Lemma loop_segments (path : string) (b : bool) (rest : string) :
  forall (pre seg : string) (kept : list string) (st : Posix.LoopState),
    path = pre +:+ seg +:+ rest -> loop_inv pre seg kept st ->
    Posix.loop path b (S (String.length rest)) (Posix.len pre + Posix.len seg) st =
    Js.join "/" (reverse (Posix.resolve b (Js.split "/" (seg +:+ rest)) kept)).
Proof.
  induction rest as [|c rest IH]; intros pre seg kept st Hpath Hinv.
  - pose proof Hinv as (Hres & _ & _ & _ & Hcode & _ & Hseg).
    rewrite app_empty_r in Hpath |- *. rewrite (split_no_sep _ _ Hseg).
    rewrite loop_S. cbn [Posix.loop Posix.resolve String.length].
    assert ((Posix.len pre + Posix.len seg <? Posix.len path)%Z = false) as ->.
    { apply Z.ltb_ge. rewrite Hpath, len_app. lia. }
    destruct (Posix.isPosixPathSeparator (Posix.code st)) eqn:Hsep.
    + destruct (decide (seg = "")) as [->|Hne]; [|by specialize (Hcode Hne)].
      unfold Posix.step. by rewrite decide_True by auto.
    + destruct (body_slash_state path b pre seg "" kept st) as (r & l & -> & -> & _);
        [by rewrite app_empty_r|done|done].
  - pose proof Hinv as (_ & _ & _ & _ & _ & _ & Hseg).
    cbn [String.length]. rewrite loop_S.
    assert ((Posix.len pre + Posix.len seg <? Posix.len path)%Z = true) as ->.
    { apply Z.ltb_lt. rewrite Hpath, !len_app, len_String.
      pose proof (len_nonneg rest). lia. }
    assert (Js.charCodeAt path (Posix.len pre + Posix.len seg) = Some c) as ->.
    { rewrite Hpath, <- app_assoc_str, <- len_app. apply charCodeAt_app. }
    destruct (decide (c = "/"%char)) as [->|Hc].
    + destruct (body_slash_state path b pre seg (String "/" rest) kept st Hpath Hinv)
        as (r & l & -> & Hr & Hl & Hkept').
      pose proof (at_slash_inv pre seg _ "/" r l Hr Hl Hkept') as Hinv'.
      replace (Posix.len pre + Posix.len seg + 1)%Z
        with (Posix.len (pre +:+ seg +:+ "/") + Posix.len "")%Z
        by (rewrite !len_app; change (Posix.len "/") with 1%Z;
            change (Posix.len "") with 0%Z; lia).
      assert (path = (pre +:+ seg +:+ "/") +:+ "" +:+ rest) as Hpath'.
      { rewrite Hpath, app_empty_l, !app_assoc_str. done. }
      rewrite (IH _ _ _ _ Hpath' Hinv').
      rewrite app_empty_l, split_app_sep, (split_no_sep _ _ Hseg). done.
    + pose proof (body_unit path b (Posix.len pre + Posix.len seg) c pre seg kept st Hc Hinv)
        as Hinv'.
      replace (Posix.len pre + Posix.len seg + 1)%Z
        with (Posix.len pre + Posix.len (seg +:+ String c ""))%Z
        by (rewrite len_app; change (Posix.len (String c "")) with 1%Z; lia).
      assert (path = pre +:+ (seg +:+ String c "") +:+ rest) as Hpath'.
      { rewrite Hpath, !app_assoc_str. done. }
      rewrite (IH _ _ _ _ Hpath' Hinv'). by rewrite app_assoc_str.
Qed.

(** The loop of [normalizeString] resolves the segments of the path. *)
Lemma normalizeString_segments (path : string) (b : bool) :
  Posix.normalizeString path b = Posix.normalizeSegments path b.
Proof.
  unfold Posix.normalizeString, Posix.normalizeSegments.
  apply (loop_segments path b path "" "" []); [done|].
  unfold loop_inv. simpl. split_and!; try done.
Qed.

Lemma normalize_relative (p : string) :
  p <> "" -> Js.startsWith "/" p = false ->
  Posix.normalize p =
  render (Posix.resolve true (Js.split "/" p) []) (Posix.endsWithSlash p).
Proof.
  intros Hp Hrel. unfold Posix.normalize, render.
  rewrite normalizeString_segments. unfold Posix.normalizeSegments.
  rewrite decide_False by done. rewrite Hrel. simpl.
  set (body := Js.join "/" (reverse (Posix.resolve true (Js.split "/" p) []))).
  destruct (decide (body = "")) as [Hbody|Hbody].
  - by rewrite decide_False by done.
  - by rewrite decide_False by done.
Qed.

Lemma normalize_render (kept : list string) (trailing : bool) :
  resolved kept -> Posix.normalize (render kept trailing) = render kept trailing.
Proof.
  intros Hkept. destruct (decide (kept = [])) as [->|Hne].
  { by destruct trailing. }
  pose proof (resolved_Forall _ Hkept) as Hall.
  apply Forall_reverse in Hall.
  assert (reverse kept <> []) as Hrne.
  { intros Hr. apply Hne. apply (f_equal reverse) in Hr.
    by rewrite reverse_involutive in Hr. }
  pose proof (joined_nonempty _ Hrne Hall) as Hbody.
  pose proof (joined_relative _ Hrne Hall) as Hrel.
  assert (render kept trailing =
          if trailing then Js.join "/" (reverse kept) +:+ "/" else Js.join "/" (reverse kept))
    as Hrender.
  { unfold render. by rewrite decide_False. }
  rewrite Hrender at 1. destruct trailing.
  - rewrite normalize_relative.
    + rewrite split_app_sep, joined_split, resolve_app, resolve_reverse by done.
      simpl. by rewrite endsWithSlash_app.
    + destruct (Js.join "/" (reverse kept)); [done|]. by rewrite app_String.
    + by rewrite startsWith_char_app.
  - rewrite normalize_relative by done.
    by rewrite joined_split, resolve_reverse, joined_no_trailing_slash.
Qed.

Lemma render_nonempty (kept : list string) (trailing : bool) :
  render kept trailing <> "".
Proof.
  unfold render. set (body := Js.join "/" (reverse kept)).
  destruct (decide (body = "")) as [|Hbody]; destruct trailing; try done.
  destruct body; [done|]. by rewrite app_String.
Qed.

Lemma render_relative (kept : list string) (trailing : bool) :
  resolved kept -> Js.startsWith "/" (render kept trailing) = false.
Proof.
  intros Hkept. destruct (decide (kept = [])) as [->|Hne].
  { by destruct trailing. }
  pose proof (resolved_Forall _ Hkept) as Hall.
  apply Forall_reverse in Hall.
  assert (reverse kept <> []) as Hrne.
  { intros Hr. apply Hne. apply (f_equal reverse) in Hr.
    by rewrite reverse_involutive in Hr. }
  pose proof (joined_nonempty _ Hrne Hall) as Hbody.
  unfold render. rewrite decide_False by done.
  destruct trailing; [rewrite startsWith_char_app by done|]; by apply joined_relative.
Qed.

Lemma resolve_Forall (P : string -> Prop) (b : bool) (segs kept : list string) :
  P ".." -> Forall P segs -> Forall P kept -> Forall P (Posix.resolve b segs kept).
Proof.
  intros Hdots. revert kept.
  induction segs as [|seg segs IH]; intros kept Hsegs Hkept; simpl; [done|].
  apply Forall_cons in Hsegs as [Hseg Hsegs]. apply IH; [done|].
  unfold Posix.step. repeat case_decide; try done.
  - destruct kept as [|top below]; [destruct b; by repeat constructor|].
    apply Forall_cons in Hkept as [Htop Hbelow].
    case_decide; [|done]. destruct b; by repeat constructor.
  - by constructor.
Qed.

Lemma includes_render (c : ascii) (kept : list string) (trailing : bool) :
  c <> "."%char -> c <> "/"%char ->
  Forall (fun seg => Js.includes c seg = false) kept ->
  Js.includes c (render kept trailing) = false.
Proof.
  intros Hdot Hslash Hall. unfold render.
  set (body := Js.join "/" (reverse kept)).
  assert (Js.includes c body = false) as Hbody.
  { apply includes_join; [|by apply Forall_reverse].
    simpl. by rewrite decide_False by done. }
  assert (Js.includes c "." = false) as Hd by (simpl; by rewrite decide_False by done).
  assert (Js.includes c "/" = false) as Hs by (simpl; by rewrite decide_False by done).
  destruct (decide (body = "")); destruct trailing;
    rewrite ?includes_app, ?Hbody, ?Hd, ?Hs; done.
Qed.

(** What [normalize] returns for a relative path. *)
Lemma normalize_relative_render (p : string) :
  Js.startsWith "/" p = false ->
  exists kept trailing,
    resolved kept /\ Posix.normalize p = render kept trailing /\
    (forall c : ascii, c <> "."%char -> c <> "/"%char -> Js.includes c p = false ->
                       Js.includes c (Posix.normalize p) = false).
Proof.
  intros Hrel. destruct (decide (p = "")) as [->|Hp].
  { exists [], false. split_and!; [apply (resolved_dots 0)|done|].
    intros c Hdot _ _. simpl. by rewrite decide_False by done. }
  exists (Posix.resolve true (Js.split "/" p) []), (Posix.endsWithSlash p).
  split_and!.
  - apply resolved_resolve; [apply split_Forall|apply (resolved_dots 0)].
  - by apply normalize_relative.
  - intros c Hdot Hslash Hc. rewrite normalize_relative by done.
    apply includes_render; [done..|].
    apply (resolve_Forall (fun seg => Js.includes c seg = false)).
    + simpl. by rewrite !decide_False by done.
    + by apply split_includes.
    + constructor.
Qed.

Lemma normalize_dot_slash (r : string) :
  r <> "" -> Js.startsWith "/" r = false ->
  Posix.normalize ("./" +:+ r) = Posix.normalize r.
Proof.
  intros Hr Hrel.
  rewrite (normalize_relative ("./" +:+ r)), (normalize_relative r); [|done..].
  change ("./" +:+ r) with ("." +:+ String "/" r).
  rewrite split_app_sep. simpl Js.split. simpl Posix.resolve.
  change ("." +:+ String "/" r) with ("./" +:+ r).
  by rewrite endsWithSlash_app.
Qed.

Lemma resolve_ordinary (segs kept : list string) :
  Forall ordinary segs -> Posix.resolve true segs kept = reverse segs ++ kept.
Proof.
  revert kept. induction segs as [|seg segs IH]; intros kept Hall; [done|].
  apply Forall_cons in Hall as [Hseg Hsegs]. simpl.
  rewrite (ordinary_step _ _ Hseg), IH by done.
  by rewrite reverse_cons, <- app_assoc.
Qed.

(** A path made of ordinary segments is left as it is. *)
Lemma normalize_ordinary (segs : list string) :
  segs <> [] -> Forall ordinary segs ->
  Posix.normalize (Js.join "/" segs) = Js.join "/" segs.
Proof.
  intros Hne Hall.
  assert (Forall (fun seg => seg <> "" /\ Js.includes "/" seg = false) segs) as Hsegs.
  { eapply Forall_impl; [done|]. by intros seg (? & _ & _ & ?). }
  rewrite normalize_relative;
    [|by apply joined_nonempty|by apply joined_relative].
  rewrite joined_split, resolve_ordinary, app_nil_r, joined_no_trailing_slash by done.
  unfold render. rewrite reverse_involutive.
  by rewrite decide_False by (by apply joined_nonempty).
Qed.

(** ** [toImportSpecifier] *)

(** C7, as the code has it.  The specifier holds no backslash.  It is the
    normalized path, its backslashes turned into slashes, behind "./" when
    that path does not begin with a dot, and that path itself when it begins
    with a dot. *)
Theorem toImportSpecifier_forward_slashes (file : string) :
  Js.includes "\" (toImportSpecifier file) = false /\
  (Js.startsWith "." (Js.replaceAll "\" "/" (Posix.normalize file)) = false ->
   toImportSpecifier file = "./" +:+ Js.replaceAll "\" "/" (Posix.normalize file)) /\
  (Js.startsWith "." (Js.replaceAll "\" "/" (Posix.normalize file)) = true ->
   toImportSpecifier file = Js.replaceAll "\" "/" (Posix.normalize file)).
Proof.
  unfold toImportSpecifier.
  pose proof (includes_replaceAll "\" "/" (Posix.normalize file)) as Hnb.
  destruct (Js.startsWith "." _) eqn:Hdot; simpl; split_and!; try done.
  - by apply Hnb.
  - change ("./" +:+ ?s) with (String "." (String "/" s)). simpl. by apply Hnb.
Qed.

Lemma toImportSpecifier_forward_slashes_witness :
  toImportSpecifier "routes\api\x.ts" = "./routes/api/x.ts" /\
  toImportSpecifier "../shared/x.ts" = "../shared/x.ts".
Proof.
  split.
  - apply (proj1 (proj2 (toImportSpecifier_forward_slashes "routes\api\x.ts"))).
    reflexivity.
  - apply (proj2 (proj2 (toImportSpecifier_forward_slashes "../shared/x.ts"))).
    reflexivity.
Defined.

(** C7, as it is worded, fails on a name that begins with a dot: the
    normalized path begins with no relative-path marker, and the specifier
    does not begin with "./". *)
Lemma toImportSpecifier_dot_name_unprefixed :
  begins_with_relative_marker (Posix.normalize ".hidden/x.ts") = false /\
  toImportSpecifier ".hidden/x.ts" = ".hidden/x.ts" /\
  Js.startsWith "./" (toImportSpecifier ".hidden/x.ts") = false.
Proof. vm_compute. repeat split. Qed.

(** C10, as the code has it.  On a path that holds no backslash and does not
    begin with a slash, deriving the specifier a second time changes
    nothing. *)
Theorem toImportSpecifier_idempotent_relative (p : string) :
  Js.includes "\" p = false ->
  Js.startsWith "/" p = false ->
  toImportSpecifier (toImportSpecifier p) = toImportSpecifier p.
Proof.
  intros Hback Hrel.
  destruct (normalize_relative_render p Hrel) as (kept & trailing & Hkept & Hnorm & Hinc).
  assert (Js.includes "\" (render kept trailing) = false) as Hrb.
  { rewrite <- Hnorm. by apply Hinc. }
  assert (forall s, s = render kept trailing ->
            Js.replaceAll "\" "/" (Posix.normalize s) = render kept trailing) as Hfix.
  { intros s ->. rewrite normalize_render by done. by apply replaceAll_id. }
  assert (toImportSpecifier p =
          if Js.startsWith "." (render kept trailing)
          then render kept trailing else "./" +:+ render kept trailing) as Hp.
  { unfold toImportSpecifier. rewrite Hnorm, (replaceAll_id _ _ _ Hrb).
    by destruct (Js.startsWith "." (render kept trailing)). }
  rewrite Hp. destruct (Js.startsWith "." (render kept trailing)) eqn:Hdot.
  - unfold toImportSpecifier. rewrite Hfix by done. by rewrite Hdot.
  - unfold toImportSpecifier.
    rewrite normalize_dot_slash by (by apply render_nonempty || by apply render_relative).
    rewrite Hfix by done. by rewrite Hdot.
Qed.

Lemma toImportSpecifier_idempotent_relative_witness :
  toImportSpecifier (toImportSpecifier "routes/a/../index.tsx")
  = toImportSpecifier "routes/a/../index.tsx".
Proof.
  apply (toImportSpecifier_idempotent_relative "routes/a/../index.tsx"); reflexivity.
Defined.

(** C10, as it is worded, fails on an absolute path: the first derivation
    gives ".//abs", the second gives "./abs".  It also fails on a path whose
    backslashes enclose a "..", since they become separators only after the
    normalization. *)
Lemma toImportSpecifier_not_idempotent :
  toImportSpecifier "/abs" = ".//abs" /\
  toImportSpecifier (toImportSpecifier "/abs") = "./abs" /\
  toImportSpecifier (toImportSpecifier "/abs") <> toImportSpecifier "/abs" /\
  toImportSpecifier "a\..\b" = "./a/../b" /\
  toImportSpecifier (toImportSpecifier "a\..\b") = "./b".
Proof. vm_compute. repeat split. discriminate. Qed.

(** The specifier of a scanned file: for a relative path [file] made of
    ordinary segments (none empty, "." or "..") and free of backslashes, as
    a scan on a POSIX host returns them, the specifier is [file] behind
    "./routes/". *)
Lemma specifier_of_scanned_file (root file : string) (segs : list string) :
  ordinary root -> Js.startsWith "." root = false -> Js.includes "\" root = false ->
  file = Js.join "/" segs -> segs <> [] -> Forall ordinary segs ->
  Js.includes "\" file = false ->
  toImportSpecifier (Posix.join [root; file]) = "./" +:+ root +:+ "/" +:+ file.
Proof.
  intros Hroot Hdot Hrb -> Hne Hall Hback.
  assert (Js.join "/" segs <> "") as Hfile.
  { apply joined_nonempty; [done|].
    eapply Forall_impl; [done|]. by intros seg (? & _ & _ & ?). }
  pose proof Hroot as (Hr & _).
  assert (Posix.normalize (root +:+ "/" +:+ Js.join "/" segs)
          = root +:+ "/" +:+ Js.join "/" segs) as Hnorm.
  { destruct segs as [|seg segs]; [done|].
    rewrite <- (join_cons_cons "/" root seg segs).
    apply normalize_ordinary; [done|]. by constructor. }
  assert (Posix.join [root; Js.join "/" segs] = root +:+ "/" +:+ Js.join "/" segs) as ->.
  { unfold Posix.join.
    rewrite filter_cons_True by done. rewrite filter_cons_True by done.
    rewrite filter_nil. exact Hnorm. }
  unfold toImportSpecifier. rewrite Hnorm.
  rewrite replaceAll_id by (by rewrite !includes_app, Hrb, Hback).
  by rewrite startsWith_char_app, Hdot by done.
Qed.

Example specifier_of_scanned_file_example :
  toImportSpecifier (Posix.join ["routes"; "api/get_only.ts"]) = "./routes/api/get_only.ts".
Proof.
  apply (specifier_of_scanned_file "routes" "api/get_only.ts" ["api"; "get_only.ts"]);
    try done.
  repeat constructor; done.
Qed.

(** ** [JSON.stringify] and [JSON.parse] *)

Example JSON_stringify_example :
  JSON_stringify project_manifest =
  "{" +:+ q +:+ "routes" +:+ q +:+ ":[" +:+ q +:+ "about.tsx" +:+ q +:+ "," +:+
  q +:+ "index.tsx" +:+ q +:+ "]," +:+ q +:+ "islands" +:+ q +:+ ":[" +:+
  q +:+ "Counter.tsx" +:+ q +:+ "]}".
Proof. vm_compute. reflexivity. Qed.

Example JSON_parse_example :
  JSON_parse (JSON_stringify project_manifest) = Ok project_manifest /\
  JSON_parse (JSON_stringify empty_manifest) = Ok empty_manifest.
Proof. vm_compute. repeat split. Qed.

Example collect_example : collect project_fs "/p" = Ok project_manifest.
Proof. vm_compute. reflexivity. Qed.

Lemma quote_unit_parse (c : ascii) (s : string) :
  Json.parse_string_body (Json.quote_unit c +:+ s) =
  Json.cons_unit c (Json.parse_string_body s).
Proof.
  destruct c as [[] [] [] [] [] [] [] []]; reflexivity.
Qed.

Lemma quote_units_parse (x rest : string) :
  Json.parse_string_body (Json.quote_units x +:+ String Json.dquote rest) = Some (x, rest).
Proof.
  induction x as [|c x IH]; [done|].
  simpl Json.quote_units. rewrite app_assoc_str, quote_unit_parse, IH. done.
Qed.

Lemma quote_length (x : string) : 2 <= String.length (Json.quote x).
Proof.
  unfold Json.quote. simpl. destruct (Json.quote_units x); simpl; lia.
Qed.

Lemma parse_elements_quote (fuel : nat) (x tail : string) :
  Json.parse_elements (S fuel) (Json.quote x +:+ tail) =
  match tail with
  | String d rest =>
      if decide (d = ","%char) then
        match Json.parse_elements fuel rest with
        | Some (xs, rest') => Some (x :: xs, rest')
        | None => None
        end
      else if decide (d = "]"%char) then Some ([x], rest)
      else None
  | "" => None
  end.
Proof.
  unfold Json.quote. rewrite app_String. cbn [Json.parse_elements].
  rewrite decide_True by done.
  rewrite app_assoc_str, app_String, app_empty_l, quote_units_parse. done.
Qed.

Lemma parse_elements_join (fuel : nat) (l : list string) (rest : string) :
  l <> [] -> length l <= fuel ->
  Json.parse_elements fuel (Js.join "," (Json.quote <$> l) +:+ String "]" rest)
  = Some (l, rest).
Proof.
  revert fuel. induction l as [|x l IH]; [done|]. intros fuel _ Hfuel.
  destruct fuel as [|fuel]; [simpl in Hfuel; lia|].
  simpl in Hfuel. destruct l as [|y l].
  - change (Js.join "," (Json.quote <$> [x])) with (Json.quote x).
    rewrite parse_elements_quote. done.
  - rewrite fmap_cons, fmap_cons, join_cons_cons, <- fmap_cons.
    rewrite !app_assoc_str, parse_elements_quote.
    rewrite app_String, app_empty_l. rewrite decide_True by done.
    rewrite IH by (done || lia). done.
Qed.

Lemma join_quote_length (l : list string) :
  length l <= String.length (Js.join "," (Json.quote <$> l)).
Proof.
  induction l as [|x l IH]; [done|].
  pose proof (quote_length x) as Hx.
  destruct l as [|y l]; [simpl; lia|].
  rewrite !fmap_cons, join_cons_cons. rewrite <- fmap_cons.
  rewrite !length_app_str. simpl in *. lia.
Qed.

Lemma stringify_array_parse (l : list string) (rest : string) :
  Json.parse_array (Json.stringify_array l +:+ rest) = Some (l, rest).
Proof.
  unfold Json.stringify_array. destruct l as [|x l]; [done|].
  rewrite !app_assoc_str, !app_String, app_empty_l.
  unfold Json.parse_array. rewrite decide_True by done.
  assert (exists c tl, Js.join "," (Json.quote <$> x :: l) = String c tl /\ c <> "]"%char)
    as (c & tl & Hj & Hc).
  { rewrite fmap_cons. destruct (Json.quote <$> l) as [|y l'].
    - simpl. unfold Json.quote. eexists _, _. split; [done|]. discriminate.
    - rewrite join_cons_cons. unfold Json.quote. rewrite app_String.
      eexists _, _. split; [done|]. discriminate. }
  pose proof (join_quote_length (x :: l)) as Hlen.
  rewrite Hj. rewrite app_String. rewrite decide_False by done.
  rewrite <- app_String, <- Hj.
  apply parse_elements_join; [done|].
  rewrite length_app_str. lia.
Qed.

Lemma strip_prefix_app (p s : string) : Json.strip_prefix p (p +:+ s) = Some s.
Proof.
  induction p as [|a p IH]; [done|]. rewrite app_String. simpl.
  by rewrite decide_True by done.
Qed.

(** What [dev] stores is read back as it was. *)
Lemma JSON_parse_stringify (m : Manifest) : JSON_parse (JSON_stringify m) = Ok m.
Proof.
  assert (JSON_stringify m =
          ("{" +:+ Json.quote "routes" +:+ ":") +:+
          (Json.stringify_array (routes m) +:+
           (("," +:+ Json.quote "islands" +:+ ":") +:+
            (Json.stringify_array (islands m) +:+ "}")))) as ->.
  { unfold JSON_stringify. by rewrite !app_assoc_str. }
  unfold JSON_parse.
  rewrite strip_prefix_app. cbn [mbind option_bind].
  rewrite stringify_array_parse. cbn [mbind option_bind].
  rewrite strip_prefix_app. cbn [mbind option_bind].
  rewrite stringify_array_parse. cbn [mbind option_bind].
  rewrite decide_True by done. by destruct m.
Qed.

(** ** [arraysEqual] *)

Lemma arraysEqual_from_spec (a b : list string) (i n : nat) :
  arraysEqual_from a b i n = true <->
  forall k, i <= k < i + n -> a !! k = b !! k.
Proof.
  revert i. induction n as [|n IH]; intros i; simpl.
  - split; [|done]. intros _ k Hk. lia.
  - case_decide as Hi.
    + split; [done|]. intros Hall. exfalso. apply Hi, Hall. lia.
    + rewrite IH. split.
      * intros Hall k Hk. destruct (decide (k = i)) as [->|]; [done|]. apply Hall. lia.
      * intros Hall k Hk. apply Hall. lia.
Qed.

Lemma arraysEqual_elementwise (a b : list string) :
  arraysEqual a b = true <->
  length a = length b /\ forall i, i < length a -> a !! i = b !! i.
Proof.
  unfold arraysEqual. case_decide as Hlen.
  - split; [done|]. by intros [? _].
  - rewrite arraysEqual_from_spec. split.
    + intros Hall. split; [done|]. intros i Hi. apply Hall. lia.
    + intros [_ Hall] k Hk. apply Hall. lia.
Qed.

Lemma arraysEqual_eq (a b : list string) : arraysEqual a b = true <-> a = b.
Proof.
  rewrite arraysEqual_elementwise. split.
  - intros [Hlen Hall]. apply list_eq. intros i.
    destruct (decide (i < length a)) as [Hi|Hi]; [by apply Hall|].
    rewrite !lookup_ge_None_2 by lia. done.
  - intros ->. done.
Qed.

Lemma manifestChanged_false (m cur : Manifest) :
  manifestChanged m cur = false <-> m = cur.
Proof.
  unfold manifestChanged. rewrite orb_false_iff, !negb_false_iff, !arraysEqual_eq.
  destruct m, cur; simpl. split; [by intros [-> ->]|by intros [= -> ->]].
Qed.

Lemma manifestChanged_true (m cur : Manifest) :
  manifestChanged m cur = true <-> m <> cur.
Proof.
  rewrite <- manifestChanged_false. by destruct (manifestChanged m cur).
Qed.

(** ** [generate] *)

Lemma count_app (p : Event -> bool) (l1 l2 : list Event) :
  count p (l1 ++ l2) = count p l1 + count p l2.
Proof. unfold count. by rewrite List.filter_app, length_app. Qed.

Lemma format_run (h : Host) (text : string) (w : World) :
  format h text w =
  match fmt h text with
  | SpawnThrows err | PipeThrows err =>
      {| outcome := Throw err; world := w; events := [Spawn (execPath h) ["fmt"; "-"]] |}
  | Exited _ _ stdout =>
      {| outcome := Ok stdout; world := w; events := [Spawn (execPath h) ["fmt"; "-"]] |}
  end.
Proof. unfold format. by destruct (fmt h text). Qed.

Lemma generate_run (h : Host) (directory : string) (manifest : Manifest) (w : World) :
  generate h directory manifest w =
  match fmt h (output manifest) with
  | SpawnThrows err | PipeThrows err =>
      {| outcome := Throw err; world := w; events := [Spawn (execPath h) ["fmt"; "-"]] |}
  | Exited _ _ stdout =>
      {| outcome := Ok tt;
         world := {| env := env w;
                     files := <[Posix.join [directory; "./fresh.gen.ts"] := stdout]> (files w) |};
         events := [Spawn (execPath h) ["fmt"; "-"];
                    WriteTextFile (Posix.join [directory; "./fresh.gen.ts"]) stdout;
                    ConsoleLog (generated_message manifest)] |}
  end.
Proof.
  unfold generate. unfold mbind at 1. unfold M_bind. rewrite format_run.
  by destruct (fmt h (output manifest)).
Qed.

Lemma handoff_run (h : Host) (dir entrypoint : string) (w : World) :
  world (handoff h dir entrypoint w) = w /\
  count is_spawn (events (handoff h dir entrypoint w)) = 0 /\
  count is_write (events (handoff h dir entrypoint w)) = 0 /\
  count is_env_get (events (handoff h dir entrypoint w)) = 0 /\
  count is_env_set (events (handoff h dir entrypoint w)) = 0.
Proof.
  unfold handoff. case_decide.
  - by destruct (build h _).
  - by destruct (import h _).
Qed.

(** ** [dev] *)

(** A cycle that gets as far as the collection, in one equation. *)
Lemma dev_run (h : Host) (base entrypoint : string) (w : World) (cur m : Manifest) :
  gte h (deno_version h) MIN_DENO_VERSION = true ->
  previous_manifest (env w !! PREVIOUS_MANIFEST) = Ok cur ->
  collect (fs h) (base_dir h base) = Ok m ->
  dev h base entrypoint w =
  let w1 := {| env := <[PREVIOUS_MANIFEST := JSON_stringify m]> (env w);
               files := files w |} in
  let g := if manifestChanged m cur then generate h (base_dir h base) m w1
           else (mret tt : M unit) w1 in
  let before := [EnvGet PREVIOUS_MANIFEST; EnvSet PREVIOUS_MANIFEST (JSON_stringify m)] in
  match outcome g with
  | Ok _ =>
      let r := handoff h (base_dir h base) (href h entrypoint base) (world g) in
      {| outcome := outcome r; world := world r;
         events := before ++ events g ++ events r |}
  | Throw err =>
      {| outcome := Throw err; world := world g; events := before ++ events g |}
  end.
Proof.
  intros Hgte Hprev Hcollect.
  unfold dev, ensureMinDenoVersion. rewrite Hgte. simpl negb. cbv iota.
  unfold mbind, M_bind, env_get, env_set, mret, M_ret. simpl.
  rewrite Hprev. simpl. rewrite Hcollect. simpl.
  destruct (manifestChanged m cur).
  - by destruct (outcome (generate _ _ _ _)).
  - done.
Qed.

(** C1, as the code has it.  When the formatter cannot be spawned, or the
    pipe to it fails, [generate] throws and changes nothing.  Once the
    formatter has run to its end, [generate] writes what it printed to
    [fresh.gen.ts], whatever its exit status and whatever it printed. *)
Theorem generate_formatter_outcomes
    (h : Host) (directory : string) (manifest : Manifest) (w : World) :
  (forall err,
     fmt h (output manifest) = SpawnThrows err \/ fmt h (output manifest) = PipeThrows err ->
     outcome (generate h directory manifest w) = Throw err /\
     world (generate h directory manifest w) = w /\
     count is_write (events (generate h directory manifest w)) = 0) /\
  (forall success code stdout,
     fmt h (output manifest) = Exited success code stdout ->
     outcome (generate h directory manifest w) = Ok tt /\
     files (world (generate h directory manifest w)) =
       <[Posix.join [directory; "./fresh.gen.ts"] := stdout]> (files w) /\
     count is_write (events (generate h directory manifest w)) = 1).
Proof.
  rewrite generate_run. split.
  - intros err [Hf|Hf]; by rewrite Hf.
  - intros success code stdout Hf. by rewrite Hf.
Qed.

Lemma generate_formatter_outcomes_witness :
  (outcome (generate (host_of project_fs fmt_missing []) "/p" project_manifest
              world_with_registry)
   = Throw (NotFound "Failed to spawn: No such file or directory (os error 2)") /\
   world (generate (host_of project_fs fmt_missing []) "/p" project_manifest
            world_with_registry) = world_with_registry /\
   count is_write (events (generate (host_of project_fs fmt_missing []) "/p"
                             project_manifest world_with_registry)) = 0) /\
  (outcome (generate (host_of project_fs fmt_identity []) "/p" project_manifest fresh_world)
   = Ok tt /\
   files (world (generate (host_of project_fs fmt_identity []) "/p" project_manifest
                   fresh_world))
   = <[Posix.join ["/p"; "./fresh.gen.ts"] := output project_manifest]> (files fresh_world) /\
   count is_write (events (generate (host_of project_fs fmt_identity []) "/p"
                             project_manifest fresh_world)) = 1).
Proof.
  split.
  - apply (proj1 (generate_formatter_outcomes (host_of project_fs fmt_missing []) "/p"
                    project_manifest world_with_registry)).
    left. reflexivity.
  - apply (proj2 (generate_formatter_outcomes (host_of project_fs fmt_identity []) "/p"
                    project_manifest fresh_world) true 0).
    reflexivity.
Defined.

(** C1, as it is worded, fails when the formatter exits with a failure and
    prints nothing: [generate] returns normally and the registry file, which
    held the module text, is overwritten with the empty text. *)
Lemma generate_writes_after_formatter_failure :
  fmt (host_of project_fs fmt_fails []) (output project_manifest) = Exited false 1 "" /\
  files world_with_registry !! "/p/fresh.gen.ts" = Some (output project_manifest) /\
  outcome (generate (host_of project_fs fmt_fails []) "/p" project_manifest
             world_with_registry) = Ok tt /\
  files (world (generate (host_of project_fs fmt_fails []) "/p" project_manifest
                  world_with_registry)) !! "/p/fresh.gen.ts" = Some "".
Proof.
  split_and!; [reflexivity|reflexivity|reflexivity|].
  rewrite generate_run. simpl. apply lookup_insert_eq.
Qed.

Lemma lookup_mapi_from {A B} (f : A -> nat -> B) (l : list A) (start i : nat) :
  Js.mapi_from start f l !! i = (fun x => f x (start + i)) <$> l !! i.
Proof.
  revert start i. induction l as [|x l IH]; intros start i; [done|].
  destruct i as [|i]; simpl.
  - by rewrite Nat.add_0_r.
  - rewrite IH. by replace (S start + i) with (start + S i) by lia.
Qed.

Lemma lookup_mapi {A B} (f : A -> nat -> B) (l : list A) (i : nat) :
  Js.mapi f l !! i = (fun x => f x i) <$> l !! i.
Proof. apply lookup_mapi_from. Qed.

Lemma length_mapi_from {A B} (f : A -> nat -> B) (l : list A) (start : nat) :
  length (Js.mapi_from start f l) = length l.
Proof. revert start. induction l as [|x l IH]; intros start; simpl; [done|]. by rewrite IH. Qed.

Lemma length_mapi {A B} (f : A -> nat -> B) (l : list A) :
  length (Js.mapi f l) = length l.
Proof. apply length_mapi_from. Qed.

Lemma quote_unit_plain (c : ascii) :
  c <> Json.dquote -> c <> Json.backslash -> (32 <=? N_of_ascii c)%N = true ->
  Json.quote_unit c = String c "".
Proof.
  intros Hq Hb Hc. unfold Json.quote_unit.
  rewrite (decide_False (P := c = Json.dquote)) by done.
  rewrite (decide_False (P := c = Json.backslash)) by done.
  repeat (case_decide; [subst; by vm_compute in Hc|]).
  apply N.leb_le in Hc.
  destruct (N.ltb_spec (N_of_ascii c) 32); [lia|done].
Qed.

Lemma quote_units_plain (s : string) : plain s = true -> Json.quote_units s = s.
Proof.
  induction s as [|c s IH]; [done|]. simpl.
  rewrite !andb_true_iff, !negb_true_iff.
  intros [[[Hq Hb] Hc] Hs].
  apply bool_decide_eq_false in Hq, Hb.
  by rewrite quote_unit_plain, IH.
Qed.

(** *** The lines of the module text *)

Lemma mapi_from_imap {A B} (f : A -> nat -> B) (l : list A) (start : nat) :
  Js.mapi_from start f l = imap (fun i x => f x (start + i)) l.
Proof.
  revert start. induction l as [|x l IH]; intros start; [done|].
  simpl. rewrite Nat.add_0_r. f_equal. rewrite IH.
  apply imap_ext. intros i y _. simpl. f_equal. lia.
Qed.

Lemma mapi_imap {A B} (f : A -> nat -> B) (l : list A) :
  Js.mapi f l = imap (fun i x => f x i) l.
Proof. apply mapi_from_imap. Qed.

Lemma join_app (d : string) (a b : list string) :
  a <> [] -> b <> [] -> Js.join d (a ++ b) = Js.join d a +:+ d +:+ Js.join d b.
Proof.
  intros Ha Hb. induction a as [|x a IH]; [done|].
  destruct a as [|y a].
  - destruct b as [|z b]; [done|]. done.
  - change ((x :: y :: a) ++ b) with (x :: (y :: a) ++ b).
    change ((y :: a) ++ b) with (y :: a ++ b) at 1.
    rewrite !join_cons_cons.
    change (y :: a ++ b) with ((y :: a) ++ b).
    rewrite IH by done. by rewrite !app_assoc_str.
Qed.

Lemma spec_lines_or_nonempty (blank : string) (ls : list string) :
  spec_lines_or blank ls <> [].
Proof. by destruct ls. Qed.

Lemma join_spec_lines_or (d : string) (ls : list string) :
  Js.join d (spec_lines_or "" ls) = Js.join d ls.
Proof. by destruct ls. Qed.

Lemma join_indented (ls : list string) :
  Js.join nl (spec_lines_or "    " (String.app "    " <$> ls)) =
  "    " +:+ Js.join (nl +:+ "    ") ls.
Proof.
  induction ls as [|x ls IH]; [done|].
  destruct ls as [|y ls]; [done|].
  change (String.app "    " <$> x :: y :: ls)
    with (("    " +:+ x) :: (String.app "    " <$> y :: ls)).
  change (String.app "    " <$> y :: ls)
    with (("    " +:+ y) :: (String.app "    " <$> ls)) at 1.
  change (spec_lines_or "    " (("    " +:+ x) :: ("    " +:+ y) :: (String.app "    " <$> ls)))
    with (("    " +:+ x) :: ("    " +:+ y) :: (String.app "    " <$> ls)).
  rewrite !join_cons_cons.
  change (("    " +:+ y) :: (String.app "    " <$> ls))
    with (spec_lines_or "    " (String.app "    " <$> y :: ls)).
  rewrite IH. by rewrite !app_assoc_str.
Qed.

Lemma Forall_spec_lines_or (P : string -> Prop) (blank : string) (ls : list string) :
  P blank -> Forall P ls -> Forall P (spec_lines_or blank ls).
Proof. intros Hb Hl. destruct ls; [by repeat constructor|done]. Qed.

Lemma Forall_imap {A B} (P : B -> Prop) (f : nat -> A -> B) (l : list A) :
  (forall i x, l !! i = Some x -> P (f i x)) -> Forall P (imap f l).
Proof.
  intros Hf. apply Forall_lookup. intros i y Hy.
  apply list_lookup_imap_Some in Hy as (x & Hx & ->). by apply Hf.
Qed.

(** The lines of [spec_module_lines], with the specifiers and the keys the
    code computes, are the pieces of the template. *)
Lemma spec_module_lines_template (m : Manifest) :
  spec_module_lines (fun file => toImportSpecifier (Posix.join ["routes"; file]))
                    (fun file => toImportSpecifier (Posix.join ["islands"; file]))
                    Json.quote m =
  ["// DO NOT EDIT. This file is generated by Fresh.";
   "// This file SHOULD be checked into source version control.";
   "// This file is automatically updated during development when running `dev.ts`.";
   ""] ++
  spec_lines_or "" (Js.mapi routeImport (routes m)) ++
  spec_lines_or "" (Js.mapi islandImport (islands m)) ++
  [""; "const manifest = {"; "  routes: {"] ++
  spec_lines_or "    " (String.app "    " <$> Js.mapi routeEntry (routes m)) ++
  ["  },"; "  islands: {"] ++
  spec_lines_or "    " (String.app "    " <$> Js.mapi islandEntry (islands m)) ++
  ["  },"; "  baseUrl: import.meta.url,"; "};"; ""; "export default manifest;"; ""].
Proof.
  unfold spec_module_lines. rewrite !mapi_imap, !fmap_imap.
  apply (f_equal2 app); [done|].
  apply (f_equal2 app); [|apply (f_equal2 app); [|apply (f_equal2 app); [done|]]].
  3: apply (f_equal2 app); [|apply (f_equal2 app); [done|apply (f_equal2 app); [|done]]].
  all: f_equal; apply imap_ext; intros i file _; simpl;
    unfold routeImport, islandImport, routeEntry, islandEntry, double_quoted, q, Json.dquote;
    by rewrite ?app_String, ?app_empty_l, ?app_assoc_str, ?app_String, ?app_empty_l.
Qed.

(** The text piped to the formatter is these lines, each followed by a line
    feed but for the last one, which is empty. *)
Lemma output_join_lines (m : Manifest) :
  output m =
  Js.join (String "010"%char "")
    (spec_module_lines (fun file => toImportSpecifier (Posix.join ["routes"; file]))
                       (fun file => toImportSpecifier (Posix.join ["islands"; file]))
                       Json.quote m).
Proof.
  rewrite spec_module_lines_template.
  change (String "010"%char "") with nl.
  rewrite !join_app;
    try first [ discriminate
              | apply spec_lines_or_nonempty
              | intros [Hnil _]%app_eq_nil; revert Hnil;
                first [discriminate | apply spec_lines_or_nonempty] ].
  rewrite !join_spec_lines_or, !join_indented.
  unfold output, header. cbn [Js.join].
  by rewrite ?app_assoc_str, ?app_empty_r.
Qed.

Lemma plain_includes (c : ascii) (s : string) :
  plain s = true ->
  c = Json.dquote \/ c = Json.backslash \/ (N_of_ascii c < 32)%N ->
  Js.includes c s = false.
Proof.
  intros Hs Hc. induction s as [|x s IH]; [done|]. simpl in Hs.
  rewrite !andb_true_iff, !negb_true_iff in Hs. destruct Hs as [[[Hq Hb] Hx] Hs].
  apply bool_decide_eq_false in Hq, Hb. apply N.leb_le in Hx.
  simpl. rewrite decide_False; [by apply IH|].
  intros ->. destruct Hc as [?|[?|?]]; [done|done|lia].
Qed.

Lemma plain_app (a b : string) : plain (a +:+ b) = plain a && plain b.
Proof.
  induction a as [|x a IH]; [done|]. rewrite app_String. simpl. rewrite IH.
  by rewrite !andb_assoc.
Qed.

Lemma pretty_N_char_not_newline (y : N) : pretty_N_char y <> "010"%char.
Proof. unfold pretty_N_char. by repeat case_match. Qed.

Lemma pretty_N_go_no_newline (x : N) (s : string) :
  Js.includes "010" s = false -> Js.includes "010" (pretty_N_go x s) = false.
Proof.
  revert s. induction (N.lt_wf_0 x) as [x _ IH]; intros s Hs.
  destruct (decide (x = 0)%N) as [->|Hx].
  - by rewrite pretty_N_go_0.
  - rewrite pretty_N_go_step by lia.
    apply IH; [apply N.div_lt; lia|].
    simpl. rewrite decide_False by apply pretty_N_char_not_newline. done.
Qed.

Lemma pretty_nat_no_newline (n : nat) : Js.includes "010" (pretty n) = false.
Proof.
  unfold pretty, pretty_nat, pretty, pretty_N. case_decide as Hn; [done|].
  by apply pretty_N_go_no_newline.
Qed.

(** For a scanned path the specifier is the path behind "./routes/" (or
    "./islands/"), and [JSON.stringify] has nothing to escape in it. *)
Lemma scanned_plain_specifier (root file : string) :
  ordinary root -> Js.startsWith "." root = false -> plain root = true ->
  scanned_plain file ->
  toImportSpecifier (Posix.join [root; file]) = "./" +:+ root +:+ "/" +:+ file /\
  Json.quote ("./" +:+ root +:+ "/" +:+ file) = double_quoted ("./" +:+ root +:+ "/" +:+ file).
Proof.
  intros Hroot Hdot Hrp (Hplain & segs & Hfile & Hne & Hsegs).
  assert (plain ("./" +:+ root +:+ "/" +:+ file) = true) as Hp.
  { by rewrite !plain_app, Hrp, Hplain. }
  split_and!.
  - apply (specifier_of_scanned_file root file segs); try done.
    + apply plain_includes; [done|]. right. by left.
    + apply plain_includes; [done|]. right. by left.
  - unfold Json.quote, double_quoted. by rewrite (quote_units_plain _ Hp).
Qed.

Lemma spec_module_lines_scanned (m : Manifest) :
  Forall scanned_plain (routes m) -> Forall scanned_plain (islands m) ->
  spec_module_lines (fun file => toImportSpecifier (Posix.join ["routes"; file]))
                    (fun file => toImportSpecifier (Posix.join ["islands"; file]))
                    Json.quote m =
  spec_module_lines (fun file => "./routes/" +:+ file) (fun file => "./islands/" +:+ file)
                    double_quoted m.
Proof.
  intros Hr Hi.
  assert (forall i file, routes m !! i = Some file ->
            toImportSpecifier (Posix.join ["routes"; file]) = "./routes/" +:+ file /\
            Json.quote ("./routes/" +:+ file) = double_quoted ("./routes/" +:+ file)) as Hroute.
  { intros i file Hfile.
    apply (scanned_plain_specifier "routes" file);
      [by repeat split|done|done|exact (Forall_lookup_1 _ _ _ _ Hr Hfile)]. }
  assert (forall i file, islands m !! i = Some file ->
            toImportSpecifier (Posix.join ["islands"; file]) = "./islands/" +:+ file /\
            Json.quote ("./islands/" +:+ file) = double_quoted ("./islands/" +:+ file)) as Hisland.
  { intros i file Hfile.
    apply (scanned_plain_specifier "islands" file);
      [by repeat split|done|done|exact (Forall_lookup_1 _ _ _ _ Hi Hfile)]. }
  unfold spec_module_lines.
  apply (f_equal2 app); [done|].
  apply (f_equal2 app); [|apply (f_equal2 app); [|apply (f_equal2 app); [done|]]].
  3: apply (f_equal2 app); [|apply (f_equal2 app); [done|apply (f_equal2 app); [|done]]].
  all: f_equal; apply imap_ext; intros i file Hfile; simpl.
  - by rewrite (proj1 (Hroute i file Hfile)).
  - by rewrite (proj1 (Hisland i file Hfile)).
  - destruct (Hroute i file Hfile) as [-> ->]. done.
  - destruct (Hisland i file Hfile) as [-> ->]. done.
Qed.

Lemma no_newline_app (a b : string) :
  Js.includes "010" a = false -> Js.includes "010" b = false ->
  Js.includes "010" (a +:+ b) = false.
Proof. intros Ha Hb. by rewrite includes_app, Ha, Hb. Qed.

Lemma spec_module_lines_no_newline (m : Manifest) :
  Forall scanned_plain (routes m) -> Forall scanned_plain (islands m) ->
  Forall (fun line => Js.includes "010" line = false)
    (spec_module_lines (fun file => "./routes/" +:+ file) (fun file => "./islands/" +:+ file)
                       double_quoted m).
Proof.
  intros Hr Hi.
  assert (forall file, scanned_plain file -> Js.includes "010" file = false) as Hplain.
  { intros file [Hp _]. apply plain_includes; [done|]. right. right. by vm_compute. }
  assert (forall i file, routes m !! i = Some file ->
            Js.includes "010" file = false) as Hroute.
  { intros i file Hfile. apply Hplain. exact (Forall_lookup_1 _ _ _ _ Hr Hfile). }
  assert (forall i file, islands m !! i = Some file ->
            Js.includes "010" file = false) as Hisland.
  { intros i file Hfile. apply Hplain. exact (Forall_lookup_1 _ _ _ _ Hi Hfile). }
  unfold spec_module_lines. rewrite !Forall_app. split_and!;
    try (by repeat constructor).
  all: apply Forall_spec_lines_or; [done|]; apply Forall_imap; intros i file Hfile.
  all: repeat apply no_newline_app;
    first [ reflexivity
          | apply pretty_nat_no_newline
          | exact (Hroute i file Hfile)
          | exact (Hisland i file Hfile) ].
Qed.

(** C6.  The text piped to the formatter is, line by line: the three comment
    lines of the header, an empty line, one import statement per route
    binding [$i] and one per island binding [$$i], and the registry literal
    whose sub-object [routes] has one line per route and whose sub-object
    [islands] one line per island, each mapping the JSON-quoted import
    specifier to the binding of the entry, followed by the field
    [baseUrl: import.meta.url] and the default export; entries are taken in
    the order of the manifest.  For the paths a scan yields the specifier is
    the path behind "./routes/" or "./islands/", the key is that specifier
    between double quotes, and splitting the text at its line feeds gives
    exactly these lines.  What the formatter prints is written to
    [fresh.gen.ts] in the project directory, in place of what was there. *)
Theorem generate_module_text
    (h : Host) (directory : string) (manifest : Manifest) (w : World) :
  output manifest =
    Js.join (String "010"%char "")
      (spec_module_lines (fun file => toImportSpecifier (Posix.join ["routes"; file]))
                         (fun file => toImportSpecifier (Posix.join ["islands"; file]))
                         Json.quote manifest) /\
  (Forall scanned_plain (routes manifest) -> Forall scanned_plain (islands manifest) ->
   Js.split "010" (output manifest) =
     spec_module_lines (fun file => "./routes/" +:+ file) (fun file => "./islands/" +:+ file)
                       double_quoted manifest) /\
  (forall success code stdout,
     fmt h (output manifest) = Exited success code stdout ->
     events (generate h directory manifest w) =
       [Spawn (execPath h) ["fmt"; "-"];
        WriteTextFile (Posix.join [directory; "./fresh.gen.ts"]) stdout;
        ConsoleLog (generated_message manifest)] /\
     files (world (generate h directory manifest w)) !!
       Posix.join [directory; "./fresh.gen.ts"] = Some stdout /\
     (forall other, other <> Posix.join [directory; "./fresh.gen.ts"] ->
        files (world (generate h directory manifest w)) !! other = files w !! other)).
Proof.
  split_and!.
  - apply output_join_lines.
  - intros Hr Hi. rewrite output_join_lines, spec_module_lines_scanned by done.
    apply split_join; [|by apply spec_module_lines_no_newline].
    unfold spec_module_lines. discriminate.
  - intros success code stdout Hf. rewrite generate_run, Hf. simpl. split_and!.
    + done.
    + apply lookup_insert_eq.
    + intros other Hne. by apply lookup_insert_ne.
Qed.

Lemma generate_module_text_witness :
  Js.split "010" (output project_manifest) =
    ["// DO NOT EDIT. This file is generated by Fresh.";
     "// This file SHOULD be checked into source version control.";
     "// This file is automatically updated during development when running `dev.ts`.";
     "";
     "import * as $0 from " +:+ double_quoted "./routes/about.tsx" +:+ ";";
     "import * as $1 from " +:+ double_quoted "./routes/index.tsx" +:+ ";";
     "import * as $$0 from " +:+ double_quoted "./islands/Counter.tsx" +:+ ";";
     "";
     "const manifest = {";
     "  routes: {";
     "    " +:+ double_quoted "./routes/about.tsx" +:+ ": $0,";
     "    " +:+ double_quoted "./routes/index.tsx" +:+ ": $1,";
     "  },";
     "  islands: {";
     "    " +:+ double_quoted "./islands/Counter.tsx" +:+ ": $$0,";
     "  },";
     "  baseUrl: import.meta.url,";
     "};";
     "";
     "export default manifest;";
     ""] /\
  events (generate (host_of project_fs fmt_identity []) "/p" project_manifest fresh_world) =
    [Spawn "/usr/bin/deno" ["fmt"; "-"];
     WriteTextFile "/p/fresh.gen.ts" (output project_manifest);
     ConsoleLog "%cThe manifest has been generated for 2 routes and 1 islands."] /\
  files (world (generate (host_of project_fs fmt_identity []) "/p" project_manifest
                  fresh_world)) !! "/p/fresh.gen.ts" = Some (output project_manifest).
Proof.
  destruct (generate_module_text (host_of project_fs fmt_identity []) "/p"
              project_manifest fresh_world) as (_ & Hlines & Hwrite).
  destruct (Hwrite true 0 (output project_manifest)) as (Hev & Hfile & _); [reflexivity|].
  split_and!; [|exact Hev|exact Hfile].
  rewrite Hlines; [reflexivity| |].
  - apply Forall_cons_2; [|apply Forall_cons_2; [|apply Forall_nil_2]];
      (split; [reflexivity|]).
    + exists ["about.tsx"]. split_and!; [done|done|]. repeat constructor; done.
    + exists ["index.tsx"]. split_and!; [done|done|]. repeat constructor; done.
  - apply Forall_cons_2; [|apply Forall_nil_2]; (split; [reflexivity|]).
    exists ["Counter.tsx"]. split_and!; [done|done|]. repeat constructor; done.
Defined.

Example output_lines :
  Js.split "010" (output project_manifest) !! 4
    = Some ("import * as $0 from " +:+ q +:+ "./routes/about.tsx" +:+ q +:+ ";") /\
  Js.split "010" (output project_manifest) !! 5
    = Some ("import * as $1 from " +:+ q +:+ "./routes/index.tsx" +:+ q +:+ ";") /\
  Js.split "010" (output project_manifest) !! 6
    = Some ("import * as $$0 from " +:+ q +:+ "./islands/Counter.tsx" +:+ q +:+ ";") /\
  Js.split "010" (output project_manifest) !! 10
    = Some ("    " +:+ q +:+ "./routes/about.tsx" +:+ q +:+ ": $0,") /\
  Js.split "010" (output project_manifest) !! 14
    = Some ("    " +:+ q +:+ "./islands/Counter.tsx" +:+ q +:+ ": $$0,") /\
  Js.split "010" (output project_manifest) !! 16
    = Some "  baseUrl: import.meta.url,".
Proof. vm_compute. repeat split. Qed.

(** ** The cycle of [dev] *)

Section cycle.
Variables (h : Host) (base entrypoint : string) (w : World) (cur m : Manifest).
Hypothesis version_ok : gte h (deno_version h) MIN_DENO_VERSION = true.
Hypothesis previous : previous_manifest (env w !! PREVIOUS_MANIFEST) = Ok cur.
Hypothesis collected : collect (fs h) (base_dir h base) = Ok m.

Lemma dev_unchanged :
  m = cur ->
  world (dev h base entrypoint w) =
    {| env := <[PREVIOUS_MANIFEST := JSON_stringify m]> (env w); files := files w |} /\
  exists last,
    events (dev h base entrypoint w) =
      [EnvGet PREVIOUS_MANIFEST; EnvSet PREVIOUS_MANIFEST (JSON_stringify m)] ++ last /\
    count is_spawn last = 0 /\ count is_write last = 0 /\
    count is_env_get last = 0 /\ count is_env_set last = 0.
Proof using version_ok previous collected.
  intros Heq. rewrite (dev_run h base entrypoint w cur m) by done.
  apply manifestChanged_false in Heq. rewrite Heq. cbv zeta. simpl outcome.
  destruct (handoff_run h (base_dir h base) (href h entrypoint base)
              {| env := <[PREVIOUS_MANIFEST := JSON_stringify m]> (env w);
                 files := files w |}) as (Hw & Hs & Hwr & Hg & Hst).
  simpl. split; [done|]. eexists. split; [reflexivity|]. done.
Qed.

Lemma dev_changed :
  m <> cur ->
  env (world (dev h base entrypoint w)) = <[PREVIOUS_MANIFEST := JSON_stringify m]> (env w) /\
  exists last,
    events (dev h base entrypoint w) =
      [EnvGet PREVIOUS_MANIFEST; EnvSet PREVIOUS_MANIFEST (JSON_stringify m);
       Spawn (execPath h) ["fmt"; "-"]] ++ last /\
    count is_spawn last = 0 /\
    count is_env_get last = 0 /\ count is_env_set last = 0.
Proof using version_ok previous collected.
  intros Hne. rewrite (dev_run h base entrypoint w cur m) by done.
  apply manifestChanged_true in Hne. rewrite Hne. cbv zeta.
  rewrite generate_run.
  destruct (fmt h (output m)) as [err|err|success code stdout]; simpl.
  - split; [done|]. by exists [].
  - split; [done|]. by exists [].
  - destruct (handoff_run h (base_dir h base) (href h entrypoint base)
                {| env := <[PREVIOUS_MANIFEST := JSON_stringify m]> (env w);
                   files := <[Posix.join [base_dir h base; "./fresh.gen.ts"] := stdout]>
                              (files w) |}) as (Hw & Hs & Hwr & Hg & Hst).
    rewrite Hw. simpl. split; [done|].
    eexists. split; [reflexivity|].
    change (?a :: ?b :: ?l) with ([a; b] ++ l). rewrite !count_app.
    rewrite Hs, Hg, Hst. done.
Qed.

End cycle.

(** C2.  [arraysEqual] compares two sequences by length and then element by
    element, in order.  In a cycle that gets as far as the comparison, the
    formatter is spawned once when one of the two sequences of the collected
    manifest differs from the previous one, and not at all when both are
    equal; in that case no file is written either. *)
Theorem dev_regenerates_iff_changed
    (h : Host) (base entrypoint : string) (w : World) (cur m : Manifest) :
  gte h (deno_version h) MIN_DENO_VERSION = true ->
  previous_manifest (env w !! PREVIOUS_MANIFEST) = Ok cur ->
  collect (fs h) (base_dir h base) = Ok m ->
  (forall a b : list string,
     arraysEqual a b = true <->
     length a = length b /\ forall i, i < length a -> a !! i = b !! i) /\
  count is_spawn (events (dev h base entrypoint w)) =
    (if arraysEqual (routes m) (routes cur) && arraysEqual (islands m) (islands cur)
     then 0 else 1) /\
  (arraysEqual (routes m) (routes cur) = true ->
   arraysEqual (islands m) (islands cur) = true ->
   count is_write (events (dev h base entrypoint w)) = 0 /\
   files (world (dev h base entrypoint w)) = files w).
Proof.
  intros Hgte Hprev Hcollect. split; [apply arraysEqual_elementwise|].
  assert (arraysEqual (routes m) (routes cur) && arraysEqual (islands m) (islands cur)
          = negb (manifestChanged m cur)) as Hboth.
  { unfold manifestChanged.
    by destruct (arraysEqual (routes m) (routes cur)), (arraysEqual (islands m) (islands cur)). }
  rewrite Hboth. split.
  - destruct (manifestChanged m cur) eqn:Hch; simpl.
    + apply manifestChanged_true in Hch.
      destruct (dev_changed h base entrypoint w cur m Hgte Hprev Hcollect Hch)
        as (_ & last & -> & Hs & _).
      rewrite count_app, Hs. done.
    + apply manifestChanged_false in Hch.
      destruct (dev_unchanged h base entrypoint w cur m Hgte Hprev Hcollect Hch)
        as (_ & last & -> & Hs & _).
      rewrite count_app, Hs. done.
  - intros Hr Hi.
    assert (m = cur) as Heq.
    { apply manifestChanged_false. unfold manifestChanged. by rewrite Hr, Hi. }
    destruct (dev_unchanged h base entrypoint w cur m Hgte Hprev Hcollect Heq)
      as (-> & last & -> & _ & Hw & _).
    rewrite count_app, Hw. done.
Qed.

Lemma dev_regenerates_iff_changed_witness :
  count is_spawn (events (dev (host_of project_fs fmt_identity []) "file:///p/dev.ts"
                            "./main.ts" fresh_world)) = 1 /\
  count is_spawn (events (dev (host_of project_fs fmt_identity []) "file:///p/dev.ts"
                            "./main.ts" world_with_registry)) = 0 /\
  count is_write (events (dev (host_of project_fs fmt_identity []) "file:///p/dev.ts"
                            "./main.ts" world_with_registry)) = 0 /\
  files (world (dev (host_of project_fs fmt_identity []) "file:///p/dev.ts"
                  "./main.ts" world_with_registry)) = files world_with_registry.
Proof.
  destruct (dev_regenerates_iff_changed (host_of project_fs fmt_identity [])
              "file:///p/dev.ts" "./main.ts" fresh_world empty_manifest project_manifest)
    as (_ & Hfirst & _); [reflexivity | reflexivity | vm_compute; reflexivity |].
  destruct (dev_regenerates_iff_changed (host_of project_fs fmt_identity [])
              "file:///p/dev.ts" "./main.ts" world_with_registry project_manifest
              project_manifest)
    as (_ & Hsecond & Hquiet);
    [reflexivity | vm_compute; reflexivity | vm_compute; reflexivity |].
  destruct Hquiet as [Hw Hf]; [reflexivity | reflexivity |].
  split_and!; [exact Hfirst | exact Hsecond | exact Hw | exact Hf].
Defined.

Lemma JSON_stringify_nonempty (m : Manifest) : JSON_stringify m <> "".
Proof. unfold JSON_stringify. by rewrite app_String. Qed.

Lemma previous_manifest_stringify (m : Manifest) :
  previous_manifest (Some (JSON_stringify m)) = Ok m.
Proof.
  unfold previous_manifest. rewrite decide_False by apply JSON_stringify_nonempty.
  apply JSON_parse_stringify.
Qed.



(** A cycle whose collection fails stops there: the snapshot was read, and
    nothing was written. *)
Lemma dev_collect_fails
    (h : Host) (base entrypoint : string) (w : World) (cur : Manifest) (err : Exception) :
  gte h (deno_version h) MIN_DENO_VERSION = true ->
  previous_manifest (env w !! PREVIOUS_MANIFEST) = Ok cur ->
  collect (fs h) (base_dir h base) = Throw err ->
  dev h base entrypoint w =
    {| outcome := Throw err; world := w; events := [EnvGet PREVIOUS_MANIFEST] |}.
Proof.
  intros Hgte Hprev Hcollect.
  unfold dev, ensureMinDenoVersion. rewrite Hgte. simpl negb. cbv iota.
  unfold mbind, M_bind, env_get, env_set, mret, M_ret. simpl.
  rewrite Hprev. simpl. rewrite Hcollect. done.
Qed.

(** A runtime below the minimum version stops the cycle before anything is
    read. *)
Lemma dev_version_too_old (h : Host) (base entrypoint : string) (w : World) :
  gte h (deno_version h) MIN_DENO_VERSION = false ->
  dev h base entrypoint w =
    {| outcome := Throw (Exit 1); world := w;
       events := [ConsoleError (version_message h)] |}.
Proof.
  intros Hgte. unfold dev, ensureMinDenoVersion. rewrite Hgte. done.
Qed.

Lemma dev_env_after
    (h : Host) (base entrypoint : string) (w : World) (cur m : Manifest) :
  gte h (deno_version h) MIN_DENO_VERSION = true ->
  previous_manifest (env w !! PREVIOUS_MANIFEST) = Ok cur ->
  collect (fs h) (base_dir h base) = Ok m ->
  previous_manifest (env (world (dev h base entrypoint w)) !! PREVIOUS_MANIFEST) = Ok m.
Proof.
  intros Hgte Hprev Hcollect.
  assert (env (world (dev h base entrypoint w)) =
            <[PREVIOUS_MANIFEST := JSON_stringify m]> (env w)) as ->.
  { destruct (decide (m = cur)) as [Heq|Hne].
    - by destruct (dev_unchanged h base entrypoint w cur m Hgte Hprev Hcollect Heq) as (-> & _).
    - by destruct (dev_changed h base entrypoint w cur m Hgte Hprev Hcollect Hne) as (-> & _). }
  rewrite lookup_insert_eq. apply previous_manifest_stringify.
Qed.

(** X15.  Change suppression: a second cycle over an unchanged tree spawns
    no formatter and writes no file. *)
Lemma dev_second_cycle_quiet
    (h1 h2 : Host) (base entrypoint : string) (w : World) (cur m : Manifest) :
  gte h1 (deno_version h1) MIN_DENO_VERSION = true ->
  gte h2 (deno_version h2) MIN_DENO_VERSION = true ->
  previous_manifest (env w !! PREVIOUS_MANIFEST) = Ok cur ->
  collect (fs h1) (base_dir h1 base) = Ok m ->
  collect (fs h2) (base_dir h2 base) = Ok m ->
  count is_spawn (events (dev h2 base entrypoint (world (dev h1 base entrypoint w)))) = 0 /\
  count is_write (events (dev h2 base entrypoint (world (dev h1 base entrypoint w)))) = 0 /\
  files (world (dev h2 base entrypoint (world (dev h1 base entrypoint w)))) =
    files (world (dev h1 base entrypoint w)).
Proof.
  intros Hgte1 Hgte2 Hprev Hc1 Hc2.
  pose proof (dev_env_after h1 base entrypoint w cur m Hgte1 Hprev Hc1) as Hnext.
  destruct (dev_unchanged h2 base entrypoint _ m m Hgte2 Hnext Hc2 eq_refl)
    as (-> & last & -> & Hs & Hw & _).
  rewrite !count_app, Hs, Hw. done.
Qed.

(* ================================================================== *)
(** * Further properties of the code *)
(* ================================================================== *)

(** ** [collectDir] and [collect] *)

Lemma collectDir_Ok_names (fs : FileSystem) (dir : string) (paths : list string) :
  collectDir fs dir = Ok paths ->
  Sorted String.le paths /\ NoDup (fileNameWithoutExt <$> paths).
Proof.
  intros Hok. destruct (collectDir_Ok _ _ _ Hok) as [-> Hnd].
  split; [apply sort_sorted|]. by rewrite sort_perm.
Qed.

(** X1.  What a scan returns is in ascending order, holds no path twice, and
    holds no two paths with the same logical name. *)
Theorem collectDir_result_invariant (fs : FileSystem) (dir : string) (paths : list string) :
  collectDir fs dir = Ok paths ->
  Sorted String.le paths /\
  NoDup paths /\
  NoDup (fileNameWithoutExt <$> paths).
Proof.
  intros Hok. destruct (collectDir_Ok_names _ _ _ Hok) as [Hsorted Hnames].
  split_and!; [done| |done].
  by apply (NoDup_fmap_1 fileNameWithoutExt).
Qed.

Lemma collectDir_result_invariant_witness :
  Sorted String.le ["about.tsx"; "api/x.ts"; "index.tsx"] /\
  NoDup ["about.tsx"; "api/x.ts"; "index.tsx"] /\
  NoDup (fileNameWithoutExt <$> ["about.tsx"; "api/x.ts"; "index.tsx"]).
Proof.
  apply (collectDir_result_invariant fs_order2 "/p/routes").
  vm_compute. reflexivity.
Defined.

(** X2.  The scan of an existing directory succeeds exactly when the
    traversal ends without an error and no two visited files have the same
    logical name. *)
Theorem collectDir_succeeds_iff (fs : FileSystem) (dir : string) (info : FileInfo) :
  stat fs dir = Ok info -> isDirectory info = true ->
  (exists paths, collectDir fs dir = Ok paths) <->
  walk_end (walk fs dir walk_options) = None /\
  NoDup (entry_name fs dir <$> walk_entries (walk fs dir walk_options)).
Proof.
  intros Hstat Hdir. rewrite (collectDir_directory fs dir info Hstat Hdir). simpl.
  destruct (first_conflict _ ∅) as [n|] eqn:Hc.
  - split; [by intros [paths ?]|]. intros [_ Hnd]. exfalso.
    assert (first_conflict (entry_name fs dir <$> walk_entries (walk fs dir walk_options)) ∅
            = None) as Hnone.
    { apply first_conflict_None. split; [done|]. intros m _. apply not_elem_of_empty. }
    congruence.
  - apply first_conflict_None in Hc as [Hnd _].
    destruct (walk_end _) as [err|].
    + split; [by intros [paths ?]|by intros [? _]].
    + split; [done|]. intros _. by eexists.
Qed.

Lemma collectDir_succeeds_iff_witness :
  (exists paths, collectDir fs_order1 "/p/routes" = Ok paths) <->
  walk_end (walk fs_order1 "/p/routes" walk_options) = None /\
  NoDup (entry_name fs_order1 "/p/routes" <$>
           walk_entries (walk fs_order1 "/p/routes" walk_options)).
Proof.
  apply (collectDir_succeeds_iff fs_order1 "/p/routes" {| isDirectory := true |});
    reflexivity.
Defined.

Lemma split_singleton (sep : ascii) (s x : string) :
  Js.split sep s = [x] -> Js.includes sep s = false.
Proof.
  revert x. induction s as [|c s IH]; intros x; simpl; [done|].
  pose proof (split_nonempty sep s) as Hne.
  case_decide as Hc.
  - intros [= _ Hs]. done.
  - destruct (Js.split sep s) as [|seg segs]; [done|].
    intros [= _ ->]. by apply (IH seg).
Qed.

(** X3.  The logical name of a path that holds no dot is empty.  A path that
    holds a dot is its logical name, a dot, and a last segment free of dots:
    nothing but that segment and its dot is dropped. *)
Theorem fileNameWithoutExt_cases (rel : string) :
  (Js.includes "." rel = false -> fileNameWithoutExt rel = "") /\
  (Js.includes "." rel = true ->
   exists ext, Js.includes "." ext = false /\
               rel = fileNameWithoutExt rel +:+ "." +:+ ext).
Proof.
  unfold fileNameWithoutExt. split.
  - intros Hno. by rewrite (split_no_sep _ _ Hno).
  - intros Hdot.
    pose proof (split_nonempty "." rel) as Hne.
    pose proof (split_Forall "." rel) as Hall.
    pose proof (join_split "." rel) as Hjoin.
    destruct (Js.split "." rel) as [|x l] eqn:Hsplit using rev_ind; [done|]. clear IHl.
    assert (Js.includes "." x = false) as Hx.
    { rewrite Forall_forall in Hall. apply Hall, elem_of_app. right. constructor. }
    rewrite slice_0_m1_snoc. exists x. split; [done|].
    destruct l as [|y l].
    + apply split_singleton in Hsplit. congruence.
    + by rewrite join_snoc in Hjoin.
Qed.

Lemma fileNameWithoutExt_cases_witness :
  fileNameWithoutExt "README" = "" /\
  exists ext, Js.includes "." ext = false /\
              "movies/[foo].json.ts" = fileNameWithoutExt "movies/[foo].json.ts" +:+ "." +:+ ext.
Proof.
  split.
  - apply (proj1 (fileNameWithoutExt_cases "README")). reflexivity.
  - apply (proj2 (fileNameWithoutExt_cases "movies/[foo].json.ts")). reflexivity.
Defined.

(** X4.  [collect] succeeds exactly when both scans do, whatever names the
    two roots share, and its failure is the failure of one of the scans.  In
    the manifest it returns, each sequence is in ascending order and free of
    name conflicts. *)
Theorem collect_manifest (fs : FileSystem) (directory : string) :
  (forall a b,
     collectDir fs (Posix.join [directory; "./routes"]) = Ok a ->
     collectDir fs (Posix.join [directory; "./islands"]) = Ok b ->
     collect fs directory = Ok {| routes := a; islands := b |}) /\
  (forall m, collect fs directory = Ok m ->
     collectDir fs (Posix.join [directory; "./routes"]) = Ok (routes m) /\
     collectDir fs (Posix.join [directory; "./islands"]) = Ok (islands m) /\
     Sorted String.le (routes m) /\ Sorted String.le (islands m) /\
     NoDup (fileNameWithoutExt <$> routes m) /\
     NoDup (fileNameWithoutExt <$> islands m)) /\
  (forall err, collect fs directory = Throw err ->
     collectDir fs (Posix.join [directory; "./routes"]) = Throw err \/
     collectDir fs (Posix.join [directory; "./islands"]) = Throw err).
Proof.
  unfold collect. split_and!.
  - by intros a b -> ->.
  - intros m.
    destruct (collectDir fs (Posix.join [directory; "./routes"])) as [a|e1] eqn:Ha;
      destruct (collectDir fs (Posix.join [directory; "./islands"])) as [b|e2] eqn:Hb;
      [|done|done|by destruct (rejects_first fs _ _)].
    intros [= <-]. simpl.
    destruct (collectDir_Ok_names _ _ _ Ha) as (? & ?).
    destruct (collectDir_Ok_names _ _ _ Hb) as (? & ?).
    done.
  - intros err.
    destruct (collectDir fs (Posix.join [directory; "./routes"])) as [a|e1];
      destruct (collectDir fs (Posix.join [directory; "./islands"])) as [b|e2];
      [done|intros [= ->]; by right|intros [= ->]; by left|].
    destruct (rejects_first fs _ _); intros [= ->]; [by left|by right].
Qed.

Lemma collect_manifest_witness :
  collect project_fs "/p" = Ok project_manifest /\
  Sorted String.le (routes project_manifest) /\
  NoDup (fileNameWithoutExt <$> routes project_manifest).
Proof.
  split.
  - apply (proj1 (collect_manifest project_fs "/p") ["about.tsx"; "index.tsx"] ["Counter.tsx"]);
      vm_compute; reflexivity.
  - destruct (proj1 (proj2 (collect_manifest project_fs "/p")) project_manifest)
      as (_ & _ & Hs & _ & Hn & _); [vm_compute; reflexivity|].
    split; [exact Hs|exact Hn].
Defined.

(** ** The specifiers and the bindings of the generated module *)

(** X5.  For the relative paths a scan returns on a POSIX host (segments
    that are neither empty, nor ".", nor "..", and no backslash), the
    specifier of a file is its path behind "./" and the root, and two
    different files never get the same specifier. *)
Theorem scanned_specifiers (root f g : string) (fsegs gsegs : list string) :
  ordinary root -> Js.startsWith "." root = false -> Js.includes "\" root = false ->
  f = Js.join "/" fsegs -> fsegs <> [] -> Forall ordinary fsegs -> Js.includes "\" f = false ->
  g = Js.join "/" gsegs -> gsegs <> [] -> Forall ordinary gsegs -> Js.includes "\" g = false ->
  toImportSpecifier (Posix.join [root; f]) = "./" +:+ root +:+ "/" +:+ f /\
  (toImportSpecifier (Posix.join [root; f]) = toImportSpecifier (Posix.join [root; g]) ->
   f = g).
Proof.
  intros Hroot Hdot Hrb Hf Hfne Hfall Hfb Hg Hgne Hgall Hgb.
  rewrite (specifier_of_scanned_file root f fsegs) by done.
  rewrite (specifier_of_scanned_file root g gsegs) by done.
  split; [done|]. intros Heq.
  apply (inj (String.app "./")) in Heq. apply (inj (String.app root)) in Heq.
  by apply (inj (String.app "/")) in Heq.
Qed.

Lemma scanned_specifiers_witness :
  toImportSpecifier (Posix.join ["routes"; "api/get_only.ts"]) = "./routes/api/get_only.ts" /\
  (toImportSpecifier (Posix.join ["routes"; "api/get_only.ts"])
   = toImportSpecifier (Posix.join ["routes"; "index.tsx"]) ->
   "api/get_only.ts" = "index.tsx").
Proof.
  apply (scanned_specifiers "routes" "api/get_only.ts" "index.tsx"
           ["api"; "get_only.ts"] ["index.tsx"]); try done.
  - repeat constructor; done.
  - repeat constructor; done.
Defined.

Lemma normalize_dot_segment (dir name : string) :
  dir <> "" -> name <> "" -> Js.includes "/" name = false ->
  Posix.normalize (dir +:+ "/" +:+ "./" +:+ name) = Posix.normalize (dir +:+ "/" +:+ name).
Proof.
  intros Hdir Hname Hsl.
  assert (forall tail, dir +:+ tail <> "") as Hne.
  { intros tail. destruct dir; [done|]. by rewrite app_String. }
  unfold Posix.normalize.
  rewrite (decide_False (P := dir +:+ "/" +:+ "./" +:+ name = "")) by apply Hne.
  rewrite (decide_False (P := dir +:+ "/" +:+ name = "")) by apply Hne.
  rewrite !startsWith_char_app by done.
  rewrite !normalizeString_segments. unfold Posix.normalizeSegments.
  assert (forall b,
            Posix.resolve b (Js.split "/" (dir +:+ "/" +:+ "./" +:+ name)) [] =
            Posix.resolve b (Js.split "/" (dir +:+ "/" +:+ name)) []) as Hres.
  { intros b.
    change (dir +:+ "/" +:+ "./" +:+ name) with (dir +:+ String "/" ("." +:+ String "/" name)).
    change (dir +:+ "/" +:+ name) with (dir +:+ String "/" name).
    rewrite !split_app_sep, !resolve_app. done. }
  assert (Posix.endsWithSlash (dir +:+ "/" +:+ "./" +:+ name)
          = Posix.endsWithSlash (dir +:+ "/" +:+ name)) as Hend.
  { rewrite (endsWithSlash_app dir) by done.
    rewrite (endsWithSlash_app dir) by done.
    change ("/" +:+ "./" +:+ name) with ("/./" +:+ name).
    by rewrite !endsWithSlash_app. }
  rewrite Hres, Hend. reflexivity.
Qed.

(** X6.  The path handed to the build step is the path [generate] writes
    the registry to: [join(dir, "fresh.gen.ts")] and
    [join(dir, "./fresh.gen.ts")] are the same path, whatever [dir]. *)
Theorem build_gets_generated_file (h : Host) (dir entrypoint : string) (w : World) :
  Posix.join [dir; "fresh.gen.ts"] = Posix.join [dir; "./fresh.gen.ts"] /\
  ("build" ∈ args h ->
   events (handoff h dir entrypoint w) = [Build (Posix.join [dir; "./fresh.gen.ts"])] /\
   outcome (handoff h dir entrypoint w) = build h (Posix.join [dir; "./fresh.gen.ts"])).
Proof.
  assert (Posix.join [dir; "fresh.gen.ts"] = Posix.join [dir; "./fresh.gen.ts"]) as Hjoin.
  { destruct (decide (dir = "")) as [->|Hdir]; [done|].
    unfold Posix.join.
    rewrite !filter_cons_True by done. rewrite filter_nil.
    symmetry. by apply (normalize_dot_segment dir "fresh.gen.ts"). }
  split; [done|]. intros Hbuild. unfold handoff.
  rewrite decide_True by done. rewrite Hjoin.
  unfold mbind, M_bind, emit, await. simpl.
  by destruct (build h _).
Qed.

Lemma build_gets_generated_file_witness :
  events (handoff (host_of project_fs fmt_identity ["build"]) "/p" "file:///p/main.ts"
            fresh_world) = [Build (Posix.join ["/p"; "./fresh.gen.ts"])] /\
  outcome (handoff (host_of project_fs fmt_identity ["build"]) "/p" "file:///p/main.ts"
             fresh_world) = Ok tt.
Proof.
  apply (proj2 (build_gets_generated_file (host_of project_fs fmt_identity ["build"])
                  "/p" "file:///p/main.ts" fresh_world)).
  apply list_elem_of_In. left. reflexivity.
Defined.

Lemma pretty_N_char_not_dollar (y : N) : pretty_N_char y <> "$"%char.
Proof. unfold pretty_N_char. by repeat case_match. Qed.

Lemma pretty_N_go_head (x : N) (s : string) :
  (0 < x)%N -> exists y rest, pretty_N_go x s = String (pretty_N_char y) rest.
Proof.
  revert s. induction (N.lt_wf_0 x) as [x _ IH]; intros s Hx.
  rewrite pretty_N_go_step by done.
  destruct (decide (x `div` 10 = 0)%N) as [->|Hd].
  - rewrite pretty_N_go_0. eauto.
  - apply IH; [by apply N.div_lt|by apply N.neq_0_lt_0].
Qed.

Lemma pretty_nat_head (n : nat) :
  exists y rest, pretty n = String (pretty_N_char y) rest.
Proof.
  unfold pretty, pretty_nat, pretty, pretty_N. case_decide as Hn.
  - by exists 0%N, "".
  - apply pretty_N_go_head. lia.
Qed.

(** X7.  The bindings of the generated module never clash: two routes, or
    two islands, at different positions get different names, and no route
    shares its name with an island.  These names are the ones the import
    lines and the registry lines hold. *)
Theorem bindings_distinct (file : string) (i j : nat) :
  (routeBinding i = routeBinding j -> i = j) /\
  (islandBinding i = islandBinding j -> i = j) /\
  routeBinding i <> islandBinding j /\
  routeImport file i =
    "import * as " +:+ routeBinding i +:+ " from " +:+ q +:+
    toImportSpecifier (Posix.join ["routes"; file]) +:+ q +:+ ";" /\
  islandImport file i =
    "import * as " +:+ islandBinding i +:+ " from " +:+ q +:+
    toImportSpecifier (Posix.join ["islands"; file]) +:+ q +:+ ";" /\
  routeEntry file i =
    Json.quote (toImportSpecifier (Posix.join ["routes"; file])) +:+ ": " +:+
    routeBinding i +:+ "," /\
  islandEntry file i =
    Json.quote (toImportSpecifier (Posix.join ["islands"; file])) +:+ ": " +:+
    islandBinding i +:+ ",".
Proof.
  unfold routeBinding, islandBinding. split_and!.
  - intros Heq. apply (inj (String.app "$")) in Heq. by apply (inj pretty) in Heq.
  - intros Heq. apply (inj (String.app "$$")) in Heq. by apply (inj pretty) in Heq.
  - intros Heq. change ("$$" +:+ pretty j) with ("$" +:+ ("$" +:+ pretty j)) in Heq.
    apply (inj (String.app "$")) in Heq.
    destruct (pretty_nat_head i) as (y & rest & Hi). rewrite Hi in Heq.
    rewrite app_String in Heq. injection Heq as Hc _.
    by apply pretty_N_char_not_dollar in Hc.
  - unfold routeImport. by rewrite !app_assoc_str.
  - unfold islandImport. by rewrite !app_assoc_str.
  - unfold routeEntry. by rewrite !app_assoc_str.
  - unfold islandEntry. by rewrite !app_assoc_str.
Qed.

Lemma bindings_distinct_witness :
  (routeBinding 1 = routeBinding 10 -> 1 = 10) /\ routeBinding 2 <> islandBinding 2.
Proof.
  destruct (bindings_distinct "index.tsx" 1 10) as (Hr & _).
  destruct (bindings_distinct "index.tsx" 2 2) as (_ & _ & Hd & _).
  split; [exact Hr|exact Hd].
Defined.

(** X8.  For a specifier that holds no double quote, no backslash and no
    control character, the key of the registry line is the very text the
    import line has after [from]: the specifier between double quotes. *)
Theorem registry_key_is_import_source (file : string) (i : nat) :
  (plain (toImportSpecifier (Posix.join ["routes"; file])) = true ->
   Json.quote (toImportSpecifier (Posix.join ["routes"; file])) =
     q +:+ toImportSpecifier (Posix.join ["routes"; file]) +:+ q /\
   routeEntry file i =
     q +:+ toImportSpecifier (Posix.join ["routes"; file]) +:+ q +:+
     ": $" +:+ pretty i +:+ ",") /\
  (plain (toImportSpecifier (Posix.join ["islands"; file])) = true ->
   Json.quote (toImportSpecifier (Posix.join ["islands"; file])) =
     q +:+ toImportSpecifier (Posix.join ["islands"; file]) +:+ q /\
   islandEntry file i =
     q +:+ toImportSpecifier (Posix.join ["islands"; file]) +:+ q +:+
     ": $$" +:+ pretty i +:+ ",").
Proof.
  assert (forall s, plain s = true -> Json.quote s = q +:+ s +:+ q) as Hquote.
  { intros s Hs. unfold Json.quote. by rewrite (quote_units_plain s Hs). }
  split; intros Hplain; (split; [by apply Hquote|]).
  - unfold routeEntry. rewrite (Hquote _ Hplain). by rewrite !app_assoc_str.
  - unfold islandEntry. rewrite (Hquote _ Hplain). by rewrite !app_assoc_str.
Qed.

Lemma registry_key_is_import_source_witness :
  routeEntry "api/get_only.ts" 5 = q +:+ "./routes/api/get_only.ts" +:+ q +:+ ": $5," /\
  islandEntry "Counter.tsx" 0 = q +:+ "./islands/Counter.tsx" +:+ q +:+ ": $$0,".
Proof.
  split.
  - apply (proj1 (registry_key_is_import_source "api/get_only.ts" 5)). reflexivity.
  - apply (proj2 (registry_key_is_import_source "Counter.tsx" 0)). reflexivity.
Defined.

(** ** More on the cycle of [dev] *)

Lemma handoff_events (h : Host) (dir entrypoint : string) (w : World) :
  handoff h dir entrypoint w =
  {| outcome := if decide ("build" ∈ args h)
                then build h (Posix.join [dir; "fresh.gen.ts"])
                else import h entrypoint;
     world := w;
     events := [if decide ("build" ∈ args h)
                then Build (Posix.join [dir; "fresh.gen.ts"])
                else Import entrypoint] |}.
Proof.
  unfold handoff. case_decide.
  - unfold mbind, M_bind, emit, await. simpl. by destruct (build h _).
  - unfold mbind, M_bind, emit, await. simpl. by destruct (import h _).
Qed.

(** X9.  A cycle in which a scan fails stops there, with the error of a
    failing scan (of the one that rejects first when both fail): the
    snapshot was read and is not overwritten, no formatter is spawned, no
    file is written and nothing is handed off. *)
Theorem dev_aborts_before_snapshot
    (h : Host) (base entrypoint : string) (w : World) (cur : Manifest) :
  gte h (deno_version h) MIN_DENO_VERSION = true ->
  previous_manifest (env w !! PREVIOUS_MANIFEST) = Ok cur ->
  (exists err, collectDir (fs h) (Posix.join [base_dir h base; "./routes"]) = Throw err) \/
  (exists err, collectDir (fs h) (Posix.join [base_dir h base; "./islands"]) = Throw err) ->
  world (dev h base entrypoint w) = w /\
  events (dev h base entrypoint w) = [EnvGet PREVIOUS_MANIFEST] /\
  exists err,
    outcome (dev h base entrypoint w) = Throw err /\
    (collectDir (fs h) (Posix.join [base_dir h base; "./routes"]) = Throw err \/
     collectDir (fs h) (Posix.join [base_dir h base; "./islands"]) = Throw err).
Proof.
  intros Hgte Hprev Hscan.
  assert (exists err,
            collect (fs h) (base_dir h base) = Throw err /\
            (collectDir (fs h) (Posix.join [base_dir h base; "./routes"]) = Throw err \/
             collectDir (fs h) (Posix.join [base_dir h base; "./islands"]) = Throw err))
    as (err & Hcollect & Hwhich).
  { unfold collect.
    destruct (collectDir (fs h) (Posix.join [base_dir h base; "./routes"])) as [a|e1];
      destruct (collectDir (fs h) (Posix.join [base_dir h base; "./islands"])) as [b|e2].
    - by destruct Hscan as [[err Herr]|[err Herr]].
    - exists e2. split; [done|by right].
    - exists e1. split; [done|by left].
    - destruct (rejects_first (fs h) _ _).
      + exists e1. split; [done|by left].
      + exists e2. split; [done|by right]. }
  rewrite (dev_collect_fails h base entrypoint w cur err Hgte Hprev Hcollect). simpl.
  split_and!; [done|done|]. by exists err.
Qed.

Lemma dev_aborts_before_snapshot_witness :
  world (dev (host_of fs_conflict fmt_identity []) "file:///p/dev.ts" "./main.ts"
           world_with_registry) = world_with_registry /\
  events (dev (host_of fs_conflict fmt_identity []) "file:///p/dev.ts" "./main.ts"
            world_with_registry) = [EnvGet PREVIOUS_MANIFEST] /\
  exists err,
    outcome (dev (host_of fs_conflict fmt_identity []) "file:///p/dev.ts" "./main.ts"
               world_with_registry) = Throw err /\
    (collectDir fs_conflict "/p/routes" = Throw err \/
     collectDir fs_conflict "/p/islands" = Throw err).
Proof.
  apply (dev_aborts_before_snapshot (host_of fs_conflict fmt_identity [])
           "file:///p/dev.ts" "./main.ts" world_with_registry project_manifest).
  - reflexivity.
  - vm_compute. reflexivity.
  - left. eexists. vm_compute. reflexivity.
Defined.

(** When both scans fail, the error of the cycle is the one of the scan that
    rejects first: here the one of [islands]. *)
Example dev_both_scans_fail :
  dev (host_of fs_unreadable fmt_identity []) "file:///p/dev.ts" "./main.ts"
      world_with_registry =
    {| outcome :=
         Throw (HostError "PermissionDenied"
                  "Permission denied (os error 13): stat '/p/islands'");
       world := world_with_registry;
       events := [EnvGet PREVIOUS_MANIFEST] |}.
Proof.
  apply (dev_collect_fails _ _ _ _ project_manifest); vm_compute; reflexivity.
Qed.

(** X10.  A regeneration that fails is not tried again: when the formatter
    cannot be run in a cycle whose manifest changed, the cycle throws with
    the registry file as it was, but the snapshot already holds the new
    manifest, so the next cycle over the same tree spawns no formatter and
    leaves the file as it was. *)
Theorem dev_failed_generation_not_retried
    (h1 h2 : Host) (base entrypoint : string) (w : World) (cur m : Manifest)
    (err : Exception) :
  gte h1 (deno_version h1) MIN_DENO_VERSION = true ->
  gte h2 (deno_version h2) MIN_DENO_VERSION = true ->
  previous_manifest (env w !! PREVIOUS_MANIFEST) = Ok cur ->
  collect (fs h1) (base_dir h1 base) = Ok m ->
  m <> cur ->
  fmt h1 (output m) = SpawnThrows err \/ fmt h1 (output m) = PipeThrows err ->
  collect (fs h2) (base_dir h2 base) = Ok m ->
  outcome (dev h1 base entrypoint w) = Throw err /\
  files (world (dev h1 base entrypoint w)) = files w /\
  count is_spawn (events (dev h2 base entrypoint (world (dev h1 base entrypoint w)))) = 0 /\
  files (world (dev h2 base entrypoint (world (dev h1 base entrypoint w)))) = files w.
Proof.
  intros Hgte1 Hgte2 Hprev Hc1 Hne Hfmt Hc2.
  pose proof (dev_env_after h1 base entrypoint w cur m Hgte1 Hprev Hc1) as Hnext.
  assert (outcome (dev h1 base entrypoint w) = Throw err /\
          files (world (dev h1 base entrypoint w)) = files w) as [Hout Hfiles].
  { rewrite (dev_run h1 base entrypoint w cur m) by done.
    apply manifestChanged_true in Hne. rewrite Hne. cbv zeta.
    rewrite generate_run. by destruct Hfmt as [-> | ->]. }
  split; [done|]. split; [done|].
  destruct (dev_unchanged h2 base entrypoint _ m m Hgte2 Hnext Hc2 eq_refl)
    as (-> & last & -> & Hs & _).
  rewrite count_app, Hs. simpl. split; [done|]. exact Hfiles.
Qed.

Lemma dev_failed_generation_not_retried_witness :
  outcome (dev (host_of project_fs fmt_missing []) "file:///p/dev.ts" "./main.ts"
             world_with_old_snapshot)
  = Throw (NotFound "Failed to spawn: No such file or directory (os error 2)") /\
  files (world (dev (host_of project_fs fmt_missing []) "file:///p/dev.ts" "./main.ts"
                  world_with_old_snapshot)) = files world_with_old_snapshot /\
  count is_spawn
    (events (dev (host_of project_fs fmt_identity []) "file:///p/dev.ts" "./main.ts"
               (world (dev (host_of project_fs fmt_missing []) "file:///p/dev.ts"
                         "./main.ts" world_with_old_snapshot)))) = 0 /\
  files (world (dev (host_of project_fs fmt_identity []) "file:///p/dev.ts" "./main.ts"
                  (world (dev (host_of project_fs fmt_missing []) "file:///p/dev.ts"
                            "./main.ts" world_with_old_snapshot))))
  = files world_with_old_snapshot.
Proof.
  apply (dev_failed_generation_not_retried
           (host_of project_fs fmt_missing []) (host_of project_fs fmt_identity [])
           "file:///p/dev.ts" "./main.ts" world_with_old_snapshot
           {| routes := ["index.tsx"]; islands := [] |} project_manifest
           (NotFound "Failed to spawn: No such file or directory (os error 2)")).
  - reflexivity.
  - reflexivity.
  - vm_compute. reflexivity.
  - vm_compute. reflexivity.
  - discriminate.
  - left. reflexivity.
  - vm_compute. reflexivity.
Defined.

(** X11.  The first cycle of a project that has neither a [routes] nor an
    [islands] directory collects the empty manifest, which is what an absent
    snapshot stands for: the cycle stores the snapshot, spawns no formatter
    and writes no registry file. *)
Theorem dev_first_cycle_empty_project
    (h : Host) (base entrypoint : string) (w : World) (m1 m2 : string) :
  gte h (deno_version h) MIN_DENO_VERSION = true ->
  env w !! PREVIOUS_MANIFEST = None ->
  stat (fs h) (Posix.join [base_dir h base; "./routes"]) = Throw (NotFound m1) ->
  stat (fs h) (Posix.join [base_dir h base; "./islands"]) = Throw (NotFound m2) ->
  count is_spawn (events (dev h base entrypoint w)) = 0 /\
  count is_write (events (dev h base entrypoint w)) = 0 /\
  files (world (dev h base entrypoint w)) = files w /\
  env (world (dev h base entrypoint w)) !! PREVIOUS_MANIFEST =
    Some (JSON_stringify {| routes := []; islands := [] |}).
Proof.
  intros Hgte Habsent Hr Hi.
  assert (previous_manifest (env w !! PREVIOUS_MANIFEST) = Ok empty_manifest) as Hprev.
  { by rewrite Habsent. }
  assert (collect (fs h) (base_dir h base) = Ok empty_manifest) as Hcollect.
  { unfold collect, collectDir. by rewrite Hr, Hi. }
  destruct (dev_unchanged h base entrypoint w _ _ Hgte Hprev Hcollect eq_refl)
    as (-> & last & -> & Hs & Hw & _).
  rewrite !count_app, Hs, Hw. simpl. split_and!; try done.
  apply lookup_insert_eq.
Qed.

Lemma dev_first_cycle_empty_project_witness :
  count is_spawn (events (dev (host_of empty_fs fmt_identity ["build"]) "file:///p/dev.ts"
                            "./main.ts" fresh_world)) = 0 /\
  count is_write (events (dev (host_of empty_fs fmt_identity ["build"]) "file:///p/dev.ts"
                            "./main.ts" fresh_world)) = 0 /\
  files (world (dev (host_of empty_fs fmt_identity ["build"]) "file:///p/dev.ts"
                  "./main.ts" fresh_world)) = files fresh_world /\
  env (world (dev (host_of empty_fs fmt_identity ["build"]) "file:///p/dev.ts"
                "./main.ts" fresh_world)) !! PREVIOUS_MANIFEST =
    Some (JSON_stringify {| routes := []; islands := [] |}).
Proof.
  apply (dev_first_cycle_empty_project (host_of empty_fs fmt_identity ["build"])
           "file:///p/dev.ts" "./main.ts" fresh_world
           "No such file or directory (os error 2)" "No such file or directory (os error 2)");
    reflexivity.
Defined.

(** X12.  In a cycle whose manifest changed and whose formatter ran, the
    effects come in this order: the snapshot is read, then overwritten, the
    formatter is spawned, the registry file is written, the message is
    logged, and only then the build or the entrypoint is started, the build
    when [Deno.args] holds ["build"] and the import of the resolved
    entrypoint when not.  The cycle ends as the build or the import ends. *)
Theorem dev_changed_cycle_trace
    (h : Host) (base entrypoint : string) (w : World) (cur m : Manifest)
    (success : bool) (code : nat) (stdout : string) :
  gte h (deno_version h) MIN_DENO_VERSION = true ->
  previous_manifest (env w !! PREVIOUS_MANIFEST) = Ok cur ->
  collect (fs h) (base_dir h base) = Ok m ->
  m <> cur ->
  fmt h (output m) = Exited success code stdout ->
  events (dev h base entrypoint w) =
    [EnvGet PREVIOUS_MANIFEST;
     EnvSet PREVIOUS_MANIFEST (JSON_stringify m);
     Spawn (execPath h) ["fmt"; "-"];
     WriteTextFile (Posix.join [base_dir h base; "./fresh.gen.ts"]) stdout;
     ConsoleLog (generated_message m);
     if decide ("build" ∈ args h)
     then Build (Posix.join [base_dir h base; "fresh.gen.ts"])
     else Import (href h entrypoint base)] /\
  outcome (dev h base entrypoint w) =
    (if decide ("build" ∈ args h)
     then build h (Posix.join [base_dir h base; "fresh.gen.ts"])
     else import h (href h entrypoint base)) /\
  files (world (dev h base entrypoint w)) =
    <[Posix.join [base_dir h base; "./fresh.gen.ts"] := stdout]> (files w).
Proof.
  intros Hgte Hprev Hcollect Hne Hfmt.
  rewrite (dev_run h base entrypoint w cur m) by done.
  apply manifestChanged_true in Hne. rewrite Hne. cbv zeta.
  rewrite generate_run, Hfmt. simpl. rewrite handoff_events. done.
Qed.

Lemma dev_changed_cycle_trace_witness :
  events (dev (host_of project_fs fmt_identity ["build"]) "file:///p/dev.ts" "./main.ts"
            world_with_old_snapshot) =
    [EnvGet PREVIOUS_MANIFEST;
     EnvSet PREVIOUS_MANIFEST (JSON_stringify project_manifest);
     Spawn "/usr/bin/deno" ["fmt"; "-"];
     WriteTextFile (Posix.join ["/p"; "./fresh.gen.ts"]) (output project_manifest);
     ConsoleLog (generated_message project_manifest);
     Build (Posix.join ["/p"; "fresh.gen.ts"])].
Proof.
  destruct (dev_changed_cycle_trace (host_of project_fs fmt_identity ["build"])
              "file:///p/dev.ts" "./main.ts" world_with_old_snapshot
              {| routes := ["index.tsx"]; islands := [] |} project_manifest
              true 0 (output project_manifest)) as (Hev & _).
  - reflexivity.
  - vm_compute. reflexivity.
  - vm_compute. reflexivity.
  - discriminate.
  - reflexivity.
  - exact Hev.
Defined.

(** X13.  A runtime below [MIN_DENO_VERSION] stops the cycle at its very
    start: the message is reported and the process exits (as [error] of
    [./error.ts] does, according to the spec) before the snapshot is read,
    a directory scanned or a file written. *)
Theorem dev_version_gate (h : Host) (base entrypoint : string) (w : World) :
  gte h (deno_version h) MIN_DENO_VERSION = false ->
  outcome (dev h base entrypoint w) = Throw (Exit 1) /\
  world (dev h base entrypoint w) = w /\
  events (dev h base entrypoint w) =
    [ConsoleError
       ("Deno version 1.31.0 or higher is required. Please update Deno." +:+ nl +:+ nl +:+
        (if includes_text "homebrew" (execPath h)
         then "You seem to have installed Deno via homebrew. To update, run: `brew upgrade deno`"
              +:+ nl
         else "To update, run: `deno upgrade`" +:+ nl))].
Proof.
  intros Hgte. by rewrite (dev_version_too_old h base entrypoint w Hgte).
Qed.

Lemma dev_version_gate_witness :
  outcome (dev host_old_deno "file:///p/dev.ts" "./main.ts" fresh_world) = Throw (Exit 1) /\
  world (dev host_old_deno "file:///p/dev.ts" "./main.ts" fresh_world) = fresh_world /\
  events (dev host_old_deno "file:///p/dev.ts" "./main.ts" fresh_world) =
    [ConsoleError
       ("Deno version 1.31.0 or higher is required. Please update Deno." +:+ nl +:+ nl +:+
        "You seem to have installed Deno via homebrew. To update, run: `brew upgrade deno`"
        +:+ nl)].
Proof.
  apply (dev_version_gate host_old_deno "file:///p/dev.ts" "./main.ts" fresh_world).
  reflexivity.
Defined.

(** X14.  The calls [dev] and [generate] make themselves, in a cycle that
    starts with the variable unset, empty or holding a stored manifest, and
    however the cycle ends: the only environment variable read or set is
    [FRSH_DEV_PREVIOUS_MANIFEST], the only file written is the registry file
    of the project, the only command spawned is [fmt -] of the running
    executable, and each of these four happens at most once.  What
    [updateCheck], [build] and the imported entrypoint do is not counted. *)
Theorem dev_own_effects
    (h : Host) (base entrypoint : string) (w : World) (cur : Manifest) :
  previous_manifest (env w !! PREVIOUS_MANIFEST) = Ok cur ->
  (forall key, EnvGet key ∈ events (dev h base entrypoint w) -> key = PREVIOUS_MANIFEST) /\
  (forall key value, EnvSet key value ∈ events (dev h base entrypoint w) ->
     key = PREVIOUS_MANIFEST) /\
  (forall path content, WriteTextFile path content ∈ events (dev h base entrypoint w) ->
     path = Posix.join [base_dir h base; "./fresh.gen.ts"]) /\
  (forall command argv, Spawn command argv ∈ events (dev h base entrypoint w) ->
     command = execPath h /\ argv = ["fmt"; "-"]) /\
  count is_env_get (events (dev h base entrypoint w)) <= 1 /\
  count is_env_set (events (dev h base entrypoint w)) <= 1 /\
  count is_spawn (events (dev h base entrypoint w)) <= 1 /\
  count is_write (events (dev h base entrypoint w)) <= 1.
Proof.
  intros Hprev.
  assert (exists evs,
            events (dev h base entrypoint w) = evs /\
            Forall (fun e =>
                      match e with
                      | EnvGet key => key = PREVIOUS_MANIFEST
                      | EnvSet key _ => key = PREVIOUS_MANIFEST
                      | WriteTextFile path _ =>
                          path = Posix.join [base_dir h base; "./fresh.gen.ts"]
                      | Spawn command argv => command = execPath h /\ argv = ["fmt"; "-"]
                      | _ => True
                      end) evs /\
            count is_env_get evs <= 1 /\ count is_env_set evs <= 1 /\
            count is_spawn evs <= 1 /\ count is_write evs <= 1)
    as (evs & -> & Hall & Hcounts).
  { destruct (gte h (deno_version h) MIN_DENO_VERSION) eqn:Hgte;
      [|rewrite (dev_version_too_old h base entrypoint w Hgte); eexists; split; [done|];
        unfold count; simpl; split_and!; [repeat (apply Forall_cons_2; [done|]); apply Forall_nil_2|lia..]].
    destruct (collect (fs h) (base_dir h base)) as [m|err] eqn:Hcollect;
      [|rewrite (dev_collect_fails h base entrypoint w cur err Hgte Hprev Hcollect);
        eexists; split; [done|];
        unfold count; simpl; split_and!; [repeat (apply Forall_cons_2; [done|]); apply Forall_nil_2|lia..]].
    rewrite (dev_run h base entrypoint w cur m Hgte Hprev Hcollect). cbv zeta.
    destruct (manifestChanged m cur).
    - rewrite generate_run.
      destruct (fmt h (output m)) as [err|err|success code stdout]; simpl;
        rewrite ?handoff_events; simpl;
        destruct (decide ("build" ∈ args h));
        (eexists; split; [done|]); unfold count; simpl;
        (split_and!; [repeat (apply Forall_cons_2; [done|]); apply Forall_nil_2|lia..]).
    - simpl. rewrite handoff_events. simpl.
      destruct (decide ("build" ∈ args h));
        (eexists; split; [done|]); unfold count; simpl;
        (split_and!; [repeat (apply Forall_cons_2; [done|]); apply Forall_nil_2|lia..]). }
  rewrite Forall_forall in Hall.
  split_and!; try (by apply Hcounts).
  - intros key Hin. exact (Hall _ Hin).
  - intros key value Hin. exact (Hall _ Hin).
  - intros path content Hin. exact (Hall _ Hin).
  - intros command argv Hin. exact (Hall _ Hin).
Qed.

Lemma dev_own_effects_witness :
  (forall key value,
     EnvSet key value ∈ events (dev (host_of project_fs fmt_identity ["build"])
                                  "file:///p/dev.ts" "./main.ts" fresh_world) ->
     key = PREVIOUS_MANIFEST) /\
  (forall path content,
     WriteTextFile path content ∈ events (dev (host_of project_fs fmt_identity ["build"])
                                            "file:///p/dev.ts" "./main.ts" fresh_world) ->
     path = "/p/fresh.gen.ts") /\
  count is_write (events (dev (host_of project_fs fmt_identity ["build"])
                            "file:///p/dev.ts" "./main.ts" fresh_world)) <= 1.
Proof.
  destruct (dev_own_effects (host_of project_fs fmt_identity ["build"])
              "file:///p/dev.ts" "./main.ts" fresh_world empty_manifest)
    as (_ & Hset & Hwrite & _ & _ & _ & _ & Hcount); [reflexivity|].
  split_and!; [exact Hset|exact Hwrite|exact Hcount].
Defined.

Lemma dev_second_cycle_quiet_witness :
  count is_spawn
    (events (dev (host_of project_fs fmt_identity []) "file:///p/dev.ts" "./main.ts"
               (world (dev (host_of project_fs fmt_identity []) "file:///p/dev.ts"
                         "./main.ts" fresh_world)))) = 0 /\
  count is_write
    (events (dev (host_of project_fs fmt_identity []) "file:///p/dev.ts" "./main.ts"
               (world (dev (host_of project_fs fmt_identity []) "file:///p/dev.ts"
                         "./main.ts" fresh_world)))) = 0 /\
  files (world (dev (host_of project_fs fmt_identity []) "file:///p/dev.ts" "./main.ts"
                  (world (dev (host_of project_fs fmt_identity []) "file:///p/dev.ts"
                            "./main.ts" fresh_world)))) =
  files (world (dev (host_of project_fs fmt_identity []) "file:///p/dev.ts" "./main.ts"
                  fresh_world)).
Proof.
  apply (dev_second_cycle_quiet
           (host_of project_fs fmt_identity []) (host_of project_fs fmt_identity [])
           "file:///p/dev.ts" "./main.ts" fresh_world empty_manifest project_manifest).
  - reflexivity.
  - reflexivity.
  - reflexivity.
  - vm_compute. reflexivity.
  - vm_compute. reflexivity.
Defined.
